(** * lettercrap: a shallow embedding of [src/lettercrap.ts]

    The development follows the source file top to bottom:
    - JavaScript strings (sequences of UTF-16 code units) and numbers;
    - the parameter validators and the global settings store ([configure]);
    - the frame compositor ([getTextContentWithImageAtSize]) over an explicit
      tape of [Math.random] draws;
    - the surface lifecycle ([initElement], [render], [resetElement]) over an
      explicit world state, with the browser's services as an interface. *)

From Stdlib Require Import ZArith NArith QArith Qround List Bool String Ascii Lia.
From stdpp Require Import base option list gmap strings.
Import ListNotations.

Local Open Scope nat_scope.

(** ** JavaScript values *)

(** A JavaScript string is a sequence of UTF-16 code units; [length], indexing,
    [split('')] and [substring] all count code units. *)
Definition jsstring := list N.

Definition js (s : string) : jsstring :=
  map (fun c => N_of_ascii c) (list_ascii_of_string s).

Definition LF : N := 10.
Definition CR : N := 13.
Definition SPACE : N := 32.

(** [WhiteSpace] and [LineTerminator] of ECMAScript, the code units that
    [String.prototype.trim] strips. *)
Definition isWhiteSpace (c : N) : bool :=
  ((9 <=? c) && (c <=? 13) || (c =? 32) || (c =? 160) || (c =? 5760)
   || (8192 <=? c) && (c <=? 8202) || (c =? 8232) || (c =? 8233)
   || (c =? 8239) || (c =? 8287) || (c =? 12288) || (c =? 65279))%N.

Fixpoint trimStart (s : jsstring) : jsstring :=
  match s with
  | c :: rest => if isWhiteSpace c then trimStart rest else s
  | [] => []
  end.

Definition trimEnd (s : jsstring) : jsstring := rev (trimStart (rev s)).

Definition trim (s : jsstring) : jsstring := trimEnd (trimStart s).

(** A JavaScript [number]: the finite values (taken as exact rationals), the
    two infinities and [NaN]. *)
Inductive number : Type :=
  | Finite (q : Q)
  | PosInfinity
  | NegInfinity
  | NaN.

(** [a < b] on rationals, as a boolean. *)
Definition Qltb (a b : Q) : bool := negb (Qle_bool b a).

(** What a call either returns or throws: [new Error(message)]. *)
Inductive result (A : Type) : Type :=
  | Ok (a : A)
  | Throw (message : string).
Arguments Ok {A} a.
Arguments Throw {A} message.

(** ** Parameter validators (lines 359-377) *)

Definition isStringNonBlank (str : jsstring) : bool :=
  0 <? length (trim str).

Definition isArrayStringNonBlank (arr : list jsstring) : bool :=
  forallb (fun word => isStringNonBlank word) arr.

(** [num >= 0]: false for negative numbers, for [-Infinity] and for [NaN]. *)
Definition isNumberNonNegative (num : number) : bool :=
  match num with
  | Finite q => Qle_bool 0 q
  | PosInfinity => true
  | NegInfinity => false
  | NaN => false
  end.

(** ** Global settings store (lines 12-59) *)

Record Config : Type := mkConfig {
  content : jsstring;
  letters : jsstring;
  words : list jsstring;
  font_family : jsstring;
  font_weight : jsstring;
  update_interval : number;
}.

Definition config0 : Config := {|
  content := js "LETTERCRAP";
  letters := js "01";
  words := [];
  font_family := js "monospace";
  font_weight := js "normal";
  update_interval := Finite 150;
|}.

Definition fontWeights : list jsstring :=
  map js ["100"; "200"; "300"; "400"; "500"; "600"; "700"; "800"; "900";
          "lighter"; "normal"; "bold"; "bolder"]%string.

(** [Partial<Config>]: [None] is a field that is missing or [undefined]. *)
Record PartialConfig : Type := mkPartial {
  u_content : option jsstring;
  u_letters : option jsstring;
  u_words : option (list jsstring);
  u_font_family : option jsstring;
  u_font_weight : option jsstring;
  u_update_interval : option number;
}.

Definition noChange : PartialConfig := mkPartial None None None None None None.

Definition isConfigValid (config : Config) : bool :=
  let validContent := isStringNonBlank (content config) in
  let validLetters := isStringNonBlank (letters config) in
  let validWords := isArrayStringNonBlank (words config) in
  let validUpdateInterval := isNumberNonNegative (update_interval config) in
  validContent && validLetters && validWords && validUpdateInterval.

(** [a ?? b] *)
Definition nullish {A} (a : option A) (b : A) : A :=
  match a with Some v => v | None => b end.

(** [{ ...config, ...cleanUserConfig }], where [cleanUserConfig] keeps the
    entries of [userConfig] whose value is not [undefined]. *)
Definition spread (config : Config) (userConfig : PartialConfig) : Config := {|
  content := nullish (u_content userConfig) (content config);
  letters := nullish (u_letters userConfig) (letters config);
  words := nullish (u_words userConfig) (words config);
  font_family := nullish (u_font_family userConfig) (font_family config);
  font_weight := nullish (u_font_weight userConfig) (font_weight config);
  update_interval := nullish (u_update_interval userConfig) (update_interval config);
|}.

Inductive Key : Type :=
  | Kcontent | Kletters | Kwords | Kfont_family | Kfont_weight | Kupdate_interval.

(** [Object.keys(preview)]: the keys of [config], in insertion order. *)
Definition keys : list Key :=
  [Kcontent; Kletters; Kwords; Kfont_family; Kfont_weight; Kupdate_interval].

(** [config[key] = userConfig[key] ?? config[key]] *)
Definition assign (userConfig : PartialConfig) (config : Config) (key : Key) : Config :=
  match key with
  | Kcontent =>
      mkConfig (nullish (u_content userConfig) (content config)) (letters config)
        (words config) (font_family config) (font_weight config) (update_interval config)
  | Kletters =>
      mkConfig (content config) (nullish (u_letters userConfig) (letters config))
        (words config) (font_family config) (font_weight config) (update_interval config)
  | Kwords =>
      mkConfig (content config) (letters config)
        (nullish (u_words userConfig) (words config))
        (font_family config) (font_weight config) (update_interval config)
  | Kfont_family =>
      mkConfig (content config) (letters config) (words config)
        (nullish (u_font_family userConfig) (font_family config))
        (font_weight config) (update_interval config)
  | Kfont_weight =>
      mkConfig (content config) (letters config) (words config) (font_family config)
        (nullish (u_font_weight userConfig) (font_weight config)) (update_interval config)
  | Kupdate_interval =>
      mkConfig (content config) (letters config) (words config) (font_family config)
        (font_weight config)
        (nullish (u_update_interval userConfig) (update_interval config))
  end.

(** [configure] runs on the stored configuration and returns what the call
    does (returns or throws) together with the store it leaves behind. The
    [throw] on line 56 comes before the first assignment of line 58. *)
Definition configure (userConfig : PartialConfig) (config : Config)
  : result unit * Config :=
  let preview := spread config userConfig in
  if negb (isConfigValid preview) then (Throw "Invalid settings", config)
  else (Ok tt, fold_left (assign userConfig) keys config).

(** ** Frame compositor (lines 302-357) *)

(** [existingText.replace(/\r?\n|\r/g, '')]: scanning from the left, the
    regular expression matches CR LF, a lone LF or a lone CR; every match is
    dropped and every other code unit is kept. *)
Fixpoint stripLineBreaks (s : jsstring) : jsstring :=
  match s with
  | [] => []
  | c :: rest =>
      if (c =? CR)%N then
        match rest with
        | d :: rest' => if (d =? LF)%N then stripLineBreaks rest' else stripLineBreaks rest
        | [] => []
        end
      else if (c =? LF)%N then stripLineBreaks rest
      else c :: stripLineBreaks rest
  end.

(** The draws of [Math.random], taken as exact rationals: the k-th call
    returns [rnd k]. A computation that draws takes the number of draws made
    so far and returns it updated. *)
Definition tape : Type := nat -> Q.

Definition Rand (A : Type) : Type := nat -> A * nat.

Definition ret {A} (a : A) : Rand A := fun n => (a, n).

Definition bind {A B} (m : Rand A) (k : A -> Rand B) : Rand B :=
  fun n => let (a, n') := m n in k a n'.

Notation "x <- m ;; k" := (bind m (fun x => k))
  (at level 100, m at next level, right associativity).

Definition Math_random (rnd : tape) : Rand Q := fun n => (rnd n, S n).

(** [list[k]] for an integer [k]: [undefined] outside the list. *)
Definition at_index {T} (list : list T) (k : Z) : option T :=
  if (k <? 0)%Z then None else nth_error list (Z.to_nat k).

(** A string is truthy when it is neither [undefined] nor empty. *)
Definition truthy (s : option jsstring) : bool :=
  match s with
  | Some (_ :: _) => true
  | _ => false
  end.

(** The text that [chars += v] appends: [undefined] is written out. *)
Definition appended (v : option N) : jsstring :=
  match v with
  | Some c => [c]
  | None => js "undefined"
  end.

Section Compositor.

Variable rnd : tape.
Variable existingText : option jsstring.
Variable words : list jsstring.
Variable letters : jsstring.

Definition shouldReplaceWord : Rand bool :=
  r <- Math_random rnd ;; ret (Qltb r (5 # 100)).

Definition shouldReplaceExistingText : Rand bool :=
  if negb (truthy existingText) then ret true
  else r <- Math_random rnd ;; ret (Qltb r (1 # 10)).

Definition randomChoice {T} (list : list T) : Rand (option T) :=
  r <- Math_random rnd ;;
  ret (at_index list (Qfloor (r * inject_Z (Z.of_nat (length list))))).

(** Line 340: the text appended for a filled cell at absolute index [i].
    [letters.split('')] is the list of code units of [letters]. *)
Definition emitChar (i : nat) : Rand jsstring :=
  replace <- shouldReplaceExistingText ;;
  if (replace : bool) then c <- randomChoice letters ;; ret (appended c)
  else ret (appended (nth_error (default [] existingText) i)).

(** Line 341: the guard of the word injection; [&&] evaluates its right
    operand only when the left one holds. *)
Definition wordGuard : Rand bool :=
  if 0 <? length words then
    w <- shouldReplaceWord ;;
    if (w : bool) then shouldReplaceExistingText else ret false
  else ret false.

(** Lines 342-345: [chars.substring(0, n)] with a negative [n] is the empty
    string, which the truncated subtraction gives. *)
Definition injectWord (i start : nat) (chars : jsstring) : Rand jsstring :=
  word <- randomChoice words ;;
  ret (match word with
       | Some word =>
           if truthy (Some word)
              && (Z.of_nat (length word) <=? Z.of_nat i + 1 - Z.of_nat start)%Z
           then firstn (length chars - length word) chars ++ word
           else chars
       | None => chars
       end).

(** The variables of the loop, and the number of draws made so far. *)
Record LoopState : Type := mkLoop {
  chars : jsstring;
  start_of_filled_in_sequence : option nat;
  i : nat;
  draws : nat;
}.

(** Line 336-338: the classification of a sample. *)
Definition filled (r g b a : Z) : bool :=
  let black := (r <? 120)%Z in
  let transparent := (a <? 50)%Z in
  black && negb transparent.

(** Lines 339-346 and 351. *)
Definition filledCell (st : LoopState) : LoopState :=
  let start := default (i st) (start_of_filled_in_sequence st) in
  let (c, n1) := emitChar (i st) (draws st) in
  let chars1 := chars st ++ c in
  let (inject, n2) := wordGuard n1 in
  let (chars2, n3) :=
    if (inject : bool) then injectWord (i st) start chars1 n2 else (chars1, n2) in
  mkLoop chars2 (Some start) (S (i st)) n3.

(** Lines 348-349 and 351. *)
Definition emptyCell (st : LoopState) : LoopState :=
  mkLoop (chars st ++ [SPACE]) None (S (i st)) (draws st).

(** Lines 353-354. *)
Definition endOfRow (st : LoopState) : LoopState :=
  mkLoop (chars st ++ [LF]) None (i st) (draws st).

(** [ImageData]: [data] holds four bytes per pixel, row by row. *)
Record ImageData : Type := mkImageData {
  width : nat;
  height : nat;
  data : list Z;
}.

(** One turn of the inner loop (lines 332-351);
    [data.data.slice(i * 4, (i + 1) * 4)] is destructured into four samples,
    any of which is [undefined] when the slice is short. *)
Definition cell (d : ImageData) (st : LoopState) : result LoopState :=
  match firstn 4 (skipn (i st * 4) (data d)) with
  | r :: g :: b :: a :: _ =>
      if filled r g b a then Ok (filledCell st) else Ok (emptyCell st)
  | _ => Throw "Array index out of bound"
  end.

(** [for (const _x of Array(data.width).keys())] *)
Fixpoint forX (d : ImageData) (n : nat) (st : LoopState) : result LoopState :=
  match n with
  | O => Ok st
  | S n' =>
      match cell d st with
      | Ok st' => forX d n' st'
      | Throw e => Throw e
      end
  end.

(** [for (const _y of Array(data.height).keys())] *)
Fixpoint forY (d : ImageData) (m : nat) (st : LoopState) : result LoopState :=
  match m with
  | O => Ok st
  | S m' =>
      match forX d (width d) st with
      | Ok st' => forY d m' (endOfRow st')
      | Throw e => Throw e
      end
  end.

End Compositor.

Arguments mkLoop chars start_of_filled_in_sequence i draws : rename.

(** Lines 326-328. *)
Definition initialLoop (seed : nat) : LoopState := mkLoop [] (Some 0) 0 seed.

(** The compositor proper. Lines 320-325 draw the image on a canvas and read
    it back; [d] is what [context.getImageData] returned there. [rnd] holds the
    draws of [Math.random] made during the call, from the first one on. *)
Definition getTextContentWithImageAtSize (rnd : tape) (d : ImageData)
    (existingText : option jsstring) (words : list jsstring) (letters : jsstring)
    : result jsstring :=
  let existingText := option_map stripLineBreaks existingText in
  match forY rnd existingText words letters d (height d) (initialLoop 0) with
  | Ok st => Ok (chars st)
  | Throw e => Throw e
  end.

(** ** Surface lifecycle (lines 61-122 and 188-300) *)

(** A [div] of the page and a decoded image, by object identity. *)
Definition HTMLDivElement : Type := positive.
Definition HTMLImageElement : Type := positive.

(** What the code reads and writes of a [div]: its attributes, its
    [textContent] ([None] is [null]) and its [style.height]. *)
Record Element : Type := mkElement {
  attributes : gmap string jsstring;
  textContent : option jsstring;
  style_height : jsstring;
}.

Definition getAttribute (el : Element) (name : string) : option jsstring :=
  attributes el !! name.

Definition hasAttribute (el : Element) (name : string) : bool :=
  bool_decide (is_Some (attributes el !! name)).

Definition setAttribute (name : string) (value : jsstring) (el : Element) : Element :=
  mkElement (<[name := value]> (attributes el)) (textContent el) (style_height el).

Definition set_textContent (value : option jsstring) (el : Element) : Element :=
  mkElement (attributes el) value (style_height el).

Definition set_style_height (value : jsstring) (el : Element) : Element :=
  mkElement (attributes el) (textContent el) value.

(** How a promise ends: fulfilled, rejected with a reason, or never settled. *)
Inductive Reason : Type :=
  | Error (message : string)
  | ErrorEvent.

Inductive settled (A : Type) : Type :=
  | Resolved (a : A)
  | Rejected (reason : Reason)
  | Pending.
Arguments Resolved {A} a.
Arguments Rejected {A} reason.
Arguments Pending {A}.

(** The services of the browser that the lifecycle code calls. *)
Class Browser : Type := {
  (** [getImageData(createSVG(text, font_family, font_weight))], lines 198-199
      with 217-266: the data URL of the text drawn in that font. *)
  textDataURL : jsstring -> jsstring -> jsstring -> settled jsstring;
  (** [image.src = src]: the loaded image ([onload]) or [None] ([onerror]). *)
  loadImage : jsstring -> option HTMLImageElement;
  (** Lines 270-271 and 289-290: the text [`${width * aspect}px`] for the
      element as it is laid out and the given image. *)
  heightPx : Element -> HTMLImageElement -> jsstring;
  clientWidth : Element -> number;
  clientHeight : Element -> number;
  (** Lines 320-325: the canvas of [width / 6] by [height / 10] pixels with
      the image drawn on it, read back; [getImageData] can throw. *)
  getImageData : HTMLImageElement -> number -> number -> result ImageData;
  parseInt : jsstring -> number;
  numberToString : number -> jsstring;
}.

Record InitializedInstance : Type := mkInstance {
  intervalId : nat;
  observer : nat;
}.

(** The state the lifecycle code works on: the settings singleton, the
    [instances] map, the elements of the page, the repeating timers that are
    running (by id, with the element they write and their delay), and the
    resize observers that are connected (by identity, with their target). *)
Record World : Type := mkWorld {
  w_config : Config;
  instances : gmap HTMLDivElement InitializedInstance;
  document : HTMLDivElement -> Element;
  intervals : gmap nat (HTMLDivElement * number);
  observers : gmap nat HTMLDivElement;
  next_interval : nat;
  next_observer : nat;
}.

Definition set_instances (f : gmap HTMLDivElement InitializedInstance ->
                              gmap HTMLDivElement InitializedInstance)
    (w : World) : World :=
  mkWorld (w_config w) (f (instances w)) (document w) (intervals w) (observers w)
    (next_interval w) (next_observer w).

Definition update_element (element : HTMLDivElement) (f : Element -> Element)
    (w : World) : World :=
  mkWorld (w_config w) (instances w)
    (fun e => if decide (e = element) then f (document w e) else document w e)
    (intervals w) (observers w) (next_interval w) (next_observer w).

(** [clearInterval(id)] *)
Definition clearInterval (id : nat) (w : World) : World :=
  mkWorld (w_config w) (instances w) (document w) (delete id (intervals w))
    (observers w) (next_interval w) (next_observer w).

(** [observer.disconnect()] *)
Definition disconnect (o : nat) (w : World) : World :=
  mkWorld (w_config w) (instances w) (document w) (intervals w)
    (delete o (observers w)) (next_interval w) (next_observer w).

(** [new ResizeObserver(resetText)] followed by [observer.observe(element)] *)
Definition observe (element : HTMLDivElement) (w : World) : nat * World :=
  (next_observer w,
   mkWorld (w_config w) (instances w) (document w) (intervals w)
     (<[next_observer w := element]> (observers w))
     (next_interval w) (S (next_observer w))).

(** [setInterval(write, interval)] *)
Definition setInterval (element : HTMLDivElement) (interval : number) (w : World)
  : nat * World :=
  (next_interval w,
   mkWorld (w_config w) (instances w) (document w)
     (<[next_interval w := (element, interval)]> (intervals w)) (observers w)
     (S (next_interval w)) (next_observer w)).

(** [InitializedInstance.destroy] (lines 72-75) *)
Definition destroy (metadata : InitializedInstance) (w : World) : World :=
  disconnect (observer metadata) (clearInterval (intervalId metadata) w).

(** [resetElement] (lines 105-122). The parameter is an [HTMLDivElement], so
    [element instanceof Node] holds and the last branch ('Input is not a Node
    instance') is not taken. *)
Definition resetElement (element : HTMLDivElement) (w : World) : settled unit * World :=
  match instances w !! element with
  | Some metadata =>
      let w := destroy metadata w in
      let w := set_instances (delete element) w in
      let w := update_element element (set_textContent None) w in
      let w := update_element element (set_style_height []) w in
      (Resolved tt, w)
  | None => (Rejected (Error "Element not initialized"), w)
  end.

(** [str.split(' ')] *)
Fixpoint split (sep : N) (str : jsstring) : list jsstring :=
  match str with
  | [] => [[]]
  | c :: rest =>
      if (c =? sep)%N then [] :: split sep rest
      else match split sep rest with
           | word :: more => (c :: word) :: more
           | [] => [[c]]
           end
  end.

Section Lifecycle.

Context {browser : Browser}.

(** [write] (lines 293-299), first called with [text] undefined; it returns
    the text it rendered. *)
Definition write (rnd : tape) (element : HTMLDivElement) (image : HTMLImageElement)
    (text : option jsstring) (words : list jsstring) (letters : jsstring)
    (w : World) : result jsstring * World :=
  let width := clientWidth (document w element) in
  let height := clientHeight (document w element) in
  match getImageData image width height with
  | Ok d =>
      match getTextContentWithImageAtSize rnd d text words letters with
      | Ok text => (Ok text, update_element element (set_textContent (Some text)) w)
      | Throw e => (Throw e, w)
      end
  | Throw e => (Throw e, w)
  end.

(** [render] (lines 268-300) *)
Definition render (rnd : tape) (element : HTMLDivElement) (image : HTMLImageElement)
    (w : World) : result InitializedInstance * World :=
  (* resetText() *)
  let w := update_element element
             (set_style_height (heightPx (document w element) image)) w in
  let el := document w element in
  let letters :=
    trim (nullish (getAttribute el "data-lettercrap-letters") (letters (w_config w))) in
  let words :=
    match getAttribute el "data-lettercrap-words" with
    | Some attr => split SPACE attr
    | None => words (w_config w)
    end in
  let interval :=
    parseInt (nullish (getAttribute el "data-lettercrap-update-interval")
                (numberToString (update_interval (w_config w)))) in
  if negb (isStringNonBlank letters) || negb (isArrayStringNonBlank words)
     || negb (isNumberNonNegative interval)
  then (Throw "Invalid settings", w)
  else
    let (observer, w) := observe element w in
    match write rnd element image None words letters w with
    | (Ok _, w) =>
        let (id, w) := setInterval element interval w in
        (Ok (mkInstance id observer), w)
    | (Throw e, w) => (Throw e, w)
    end.

(** The promise of lines 203-215. An exception thrown inside [image.onload]
    is not caught by the promise, which then never settles. *)
Definition loadAndRender (rnd : tape) (element : HTMLDivElement) (w : World)
  : settled unit * World :=
  let src := getAttribute (document w element) "data-lettercrap" in
  if negb (truthy src) then (Rejected (Error "No image data provided"), w)
  else
    match loadImage (default [] src) with
    | Some image =>
        match render rnd element image w with
        | (Ok metadata, w) => (Resolved tt, set_instances (<[element := metadata]>) w)
        | (Throw _, w) => (Pending, w)
        end
    | None => (Rejected ErrorEvent, w)
    end.

(** [initElement] (lines 188-215), run from the call to the end of the
    image's load handler. *)
Definition initElement (rnd : tape) (element : HTMLDivElement) (w : World)
  : settled unit * World :=
  if bool_decide (is_Some (instances w !! element)) then (Resolved tt, w)
  else
    let el := document w element in
    if hasAttribute el "data-lettercrap-text" then
      let text := nullish (getAttribute el "data-lettercrap-text") (content (w_config w)) in
      let font_family :=
        nullish (getAttribute el "data-lettercrap-font-family") (font_family (w_config w)) in
      let font_weight :=
        nullish (getAttribute el "data-lettercrap-font-weight") (font_weight (w_config w)) in
      if negb (isStringNonBlank text) || negb (isStringNonBlank font_family)
         || negb (bool_decide (font_weight ∈ fontWeights))
      then (Rejected (Error "Invalid settings"), w)
      else
        match textDataURL text font_family font_weight with
        | Resolved data =>
            loadAndRender rnd element
              (update_element element (setAttribute "data-lettercrap" data) w)
        | Rejected reason => (Rejected reason, w)
        | Pending => (Pending, w)
        end
    else loadAndRender rnd element w.

End Lifecycle.

(** ** Vocabulary of the statements *)

(** A blank string: nothing but white space. *)
Definition blank (s : jsstring) : Prop := Forall (fun c => isWhiteSpace c = true) s.

(** A negative number. *)
Definition negative (num : number) : Prop :=
  match num with
  | Finite q => (q < 0)%Q
  | NegInfinity => True
  | PosInfinity | NaN => False
  end.

(** What line 58 does to one field: a provided value is stored, a missing one
    leaves the stored value. *)
Definition assigned {A} (provided : option A) (old new : A) : Prop :=
  match provided with
  | Some v => new = v
  | None => new = old
  end.

(** The settings that [configure] validates are invalid. *)
Definition rejected_settings (interval_bad : number -> Prop) (c : Config) : Prop :=
  blank (content c) \/ blank (letters c) \/ Exists blank (words c)
  \/ interval_bad (update_interval c).

(** The update [userConfig] with its two font fields replaced. *)
Definition with_fonts (family weight : option jsstring) (userConfig : PartialConfig)
  : PartialConfig :=
  mkPartial (u_content userConfig) (u_letters userConfig) (u_words userConfig)
    family weight (u_update_interval userConfig).

(** Two worlds that show the lifecycle code the same settings and the same
    state of [element]. *)
Definition same_view (element : HTMLDivElement) (wa wb : World) : Prop :=
  w_config wa = w_config wb /\ document wa element = document wb element.

(** Two runs of [render] that end alike: both return, or both throw the same
    error. *)
Definition same_end {A B} (ra : result A) (rb : result B) : Prop :=
  match ra, rb with
  | Ok _, Ok _ => True
  | Throw ea, Throw eb => ea = eb
  | _, _ => False
  end.

(** [Math.random] returns numbers from 0 inclusive to 1 exclusive. *)
Definition in_unit (rnd : tape) : Prop := forall k, (0 <= rnd k)%Q /\ (rnd k < 1)%Q.

(** The four samples of cell [k]. *)
Definition sampleAt (d : ImageData) (k : nat) : option (Z * Z * Z * Z) :=
  match firstn 4 (skipn (k * 4) (data d)) with
  | r :: g :: b :: a :: _ => Some (r, g, b, a)
  | _ => None
  end.

Definition filledAt (d : ImageData) (k : nat) : bool :=
  match sampleAt d k with
  | Some (r, g, b, a) => filled r g b a
  | None => false
  end.

(** The buffer holds four samples for every cell of the grid, as the buffer
    of an [ImageData] does. *)
Definition covers (d : ImageData) : Prop :=
  4 * (width d * height d) <= length (data d).

(** [text] is one row per row of the grid, every row followed by a line break,
    with one code unit per cell, and [cellOK k c] for the code unit [c] at the
    cell of absolute index [k] (row [y], column [x]: [k = y * width + x]). *)
Definition text_of_grid (cellOK : nat -> N -> Prop) (d : ImageData) (text : jsstring)
  : Prop :=
  exists rows : list jsstring,
    text = concat (map (fun row => row ++ [LF]) rows)
    /\ Forall2 (fun y row => Forall2 cellOK (seq (y * width d) (width d)) row)
         (seq 0 (height d)) rows.

(** The text that keeps, at every filled cell, the code unit that [previous]
    has at the absolute index of the cell. *)
Definition reusedText (d : ImageData) (previous : jsstring) : jsstring :=
  concat (map (fun y =>
                 map (fun k => if filledAt d k then nth k previous SPACE else SPACE)
                   (seq (y * width d) (width d)) ++ [LF])
            (seq 0 (height d))).

(** The states of the loop variables between two turns of a run: the initial
    one, and those that a turn of the inner loop or the end of a row leads
    to. *)
Inductive reachable (rnd : tape) (existingText : option jsstring)
    (words : list jsstring) (letters : jsstring) (d : ImageData)
  : LoopState -> Prop :=
  | reach_start : reachable rnd existingText words letters d (initialLoop 0)
  | reach_cell st st' :
      reachable rnd existingText words letters d st ->
      cell rnd existingText words letters d st = Ok st' ->
      reachable rnd existingText words letters d st'
  | reach_row st :
      reachable rnd existingText words letters d st ->
      reachable rnd existingText words letters d (endOfRow st).

(** The states of the loop variables between two turns of a run, each with
    the row it is in: [base] is the index of the first cell of the row and
    [pre] the text of the rows before it. A row ends after [width d] cells,
    with lines 353-354. *)
Inductive in_row (rnd : tape) (existingText : option jsstring)
    (words : list jsstring) (letters : jsstring) (d : ImageData)
  : nat -> jsstring -> LoopState -> Prop :=
  | row_first : in_row rnd existingText words letters d 0 [] (initialLoop 0)
  | row_cell base pre st st' :
      in_row rnd existingText words letters d base pre st ->
      cell rnd existingText words letters d st = Ok st' ->
      in_row rnd existingText words letters d base pre st'
  | row_next base pre st :
      in_row rnd existingText words letters d base pre st ->
      i st = base + width d ->
      in_row rnd existingText words letters d (i st) (chars (endOfRow st))
        (endOfRow st).

(** What holds of the loop variables in the row that starts at the cell
    [base] after the text [pre]: the text of the earlier rows is empty or ends
    in a line break; [chars] is [pre] followed by the text of the row, to
    which every cell of the row so far has given at least one code unit; a
    recorded start of the run lies in the row, the cells from it up to the
    current one are filled, and the cell before it, if the row has one, is
    not; without a recorded start the current cell begins the row or follows
    a cell that is not filled. *)
Definition run_invariant (d : ImageData) (base : nat) (pre : jsstring)
    (st : LoopState) : Prop :=
  (pre = [] \/ exists before, pre = before ++ [LF])
  /\ exists row,
       chars st = pre ++ row
       /\ base <= i st
       /\ i st - base <= length row
       /\ match start_of_filled_in_sequence st with
          | Some s =>
              base <= s <= i st
              /\ (forall k, s <= k < i st -> filledAt d k = true)
              /\ (s = base \/ filledAt d (s - 1) = false)
          | None => i st = base \/ filledAt d (i st - 1) = false
          end.

(** Neither the replacement test of line 340 nor the guard of line 341 holds
    at the cell that the loop is about to process. *)
Definition quiet_cell (rnd : tape) (existingText : option jsstring)
    (words : list jsstring) (letters : jsstring) (st : LoopState) : Prop :=
  fst (shouldReplaceExistingText rnd existingText (draws st)) = false
  /\ fst (wordGuard rnd existingText words
            (snd (emitChar rnd existingText letters (i st) (draws st)))) = false.

(** ** Sample inputs *)

(** Random sources: always 0.5; always 0.01; 0.5 once and 0.01 from then on. *)
Definition half : tape := fun _ => 1 # 2.
Definition low : tape := fun _ => 1 # 100.
Definition halfThenLow : tape := fun k => match k with O => 1 # 2 | S _ => 1 # 100 end.

Definition darkPixel : list Z := [0; 0; 0; 255]%Z.
Definition lightPixel : list Z := [255; 255; 255; 255]%Z.

(** A browser in which every image loads and shows a dark and a light cell. *)
Definition sampleBrowser : Browser := {|
  textDataURL := fun _ _ _ => Resolved (js "data:image/png;base64,iVBORw0KGgo=");
  loadImage := fun _ => Some 1%positive;
  heightPx := fun _ _ => js "20px";
  clientWidth := fun _ => Finite 12;
  clientHeight := fun _ => Finite 10;
  getImageData := fun _ _ _ => Ok (mkImageData 2 1 (darkPixel ++ lightPixel));
  parseInt := fun _ => Finite 150;
  numberToString := fun _ => js "150";
|}.

Definition imageDiv : Element :=
  mkElement {[ "data-lettercrap"%string := js "logo.png" ]} None [].

Definition heavyDiv : Element :=
  mkElement {[ "data-lettercrap-text"%string := js "HELLO";
               "data-lettercrap-font-weight"%string := js "heavy" ]} None [].

(** A page whose [div]s all show an image, none of them initialized. *)
Definition idleWorld : World := mkWorld config0 ∅ (fun _ => imageDiv) ∅ ∅ 1 0.

(** The same page with [div] number 1 initialized. *)
Definition activeWorld : World :=
  mkWorld config0 {[ 1%positive := mkInstance 1 0 ]}
    (fun e => if decide (e = 1%positive)
              then mkElement (attributes imageDiv) (Some (js "1 " ++ [LF])) (js "20px")
              else imageDiv)
    {[ 1 := (1%positive, Finite 150) ]} {[ 0 := 1%positive ]} 2 1.

(** A page whose [div]s all ask for a text in a font weight that does not
    exist. *)
Definition heavyWorld : World := mkWorld config0 ∅ (fun _ => heavyDiv) ∅ ∅ 1 0.

(** ** Further operations and vocabulary *)

(** No code unit of [s] is a line break. *)
Definition break_free (s : jsstring) : Prop := Forall (fun c => c <> CR /\ c <> LF) s.

(** What a filled cell may hold: a character of the palette, the character of
    the previous text at the index of the cell, or a character of a word. *)
Definition cell_source (letters : jsstring) (previous : option jsstring)
    (words : list jsstring) (k : nat) (c : N) : Prop :=
  In c letters
  \/ nth_error (default [] previous) k = Some c
  \/ exists word, In word words /\ In c word.

(** A frame for the grid [d]: rows of [width d] code units, none of them a
    line break, with a space at every cell that is not filled. *)
Definition frame_of (d : ImageData) (text : jsstring) : Prop :=
  text_of_grid (fun k c => (filledAt d k = false -> c = SPACE) /\ c <> CR /\ c <> LF)
    d text.

(** What the cell of index [k] may hold: a space when it is not filled. *)
Definition cell_content (letters : jsstring) (previous : option jsstring)
    (words : list jsstring) (d : ImageData) (k : nat) (c : N) : Prop :=
  if filledAt d k then cell_source letters previous words k c else c = SPACE.

(** The inputs on which every cell emits one code unit: draws from the unit
    interval, a palette that is not empty, a buffer that holds every cell and
    a previous text (line breaks removed) that is absent, empty or reaches
    every cell. *)
Definition tame (rnd : tape) (previous : option jsstring) (letters : jsstring)
    (d : ImageData) : Prop :=
  in_unit rnd /\ letters <> [] /\ covers d
  /\ (truthy previous = true -> width d * height d <= length (default [] previous)).

(** What holds of the loop variables inside a row that started at the cell
    [base] with the text [pre]: [row] is the text of the row so far, one code
    unit per cell, and a recorded start of the run lies in the row and begins
    a stretch of filled cells. *)
Definition row_invariant (cellOK : nat -> N -> Prop) (d : ImageData) (base : nat)
    (pre row : jsstring) (st : LoopState) : Prop :=
  chars st = pre ++ row
  /\ base <= i st
  /\ Forall2 cellOK (seq base (i st - base)) row
  /\ forall s, start_of_filled_in_sequence st = Some s ->
       base <= s <= i st /\ forall k, s <= k < i st -> filledAt d k = true.

(** [Promise.all] of a promise and of the promises after it, all settled or
    pending for good when it looks at them: it rejects with the reason of the
    first one that is rejected, is fulfilled when all of them are, and stays
    pending otherwise. *)
Definition promiseAll (first others : settled unit) : settled unit :=
  match first, others with
  | Rejected reason, _ => Rejected reason
  | Resolved _, _ => others
  | Pending, Rejected reason => Rejected reason
  | Pending, _ => Pending
  end.

(** [resetElements] (lines 134-136): [map] calls [resetElement] on the
    elements in order, and each call does its work before it returns its
    promise. *)
Fixpoint resetElements (elements : list HTMLDivElement) (w : World)
  : settled unit * World :=
  match elements with
  | [] => (Resolved tt, w)
  | element :: rest =>
      let (first, w) := resetElement element w in
      let (others, w) := resetElements rest w in
      (promiseAll first others, w)
  end.

(** [initElement] in the steps that the event loop runs one at a time: the
    call itself, up to the first point where it waits; the resumption when the
    data URL of the text has arrived; the [load] or [error] event of the
    image. Between two steps other code can run. *)
Inductive progress : Type :=
  | Settled (outcome : settled unit)
  | AwaitData (text family weight : jsstring)
  | AwaitImage (src : jsstring).

(** Lines 204-209, the start of the promise executor. *)
Definition startLoading (element : HTMLDivElement) (w : World) : progress :=
  let src := getAttribute (document w element) "data-lettercrap" in
  if negb (truthy src) then Settled (Rejected (Error "No image data provided"))
  else AwaitImage (default [] src).

(** Lines 189-199 up to the [await], and lines 203-209 when the element has
    no [data-lettercrap-text]. *)
Definition initElement_call (element : HTMLDivElement) (w : World) : progress :=
  if bool_decide (is_Some (instances w !! element)) then Settled (Resolved tt)
  else
    let el := document w element in
    if hasAttribute el "data-lettercrap-text" then
      let text := nullish (getAttribute el "data-lettercrap-text") (content (w_config w)) in
      let font_family :=
        nullish (getAttribute el "data-lettercrap-font-family") (font_family (w_config w)) in
      let font_weight :=
        nullish (getAttribute el "data-lettercrap-font-weight") (font_weight (w_config w)) in
      if negb (isStringNonBlank text) || negb (isStringNonBlank font_family)
         || negb (bool_decide (font_weight ∈ fontWeights))
      then Settled (Rejected (Error "Invalid settings"))
      else AwaitData text font_family font_weight
    else startLoading element w.

(** Lines 199-209, when the promise of [getImageData] has settled. *)
Definition initElement_data (element : HTMLDivElement) (data : settled jsstring)
    (w : World) : progress * World :=
  match data with
  | Resolved data =>
      let w := update_element element (setAttribute "data-lettercrap" data) w in
      (startLoading element w, w)
  | Rejected reason => (Settled (Rejected reason), w)
  | Pending => (Settled Pending, w)
  end.

(** Lines 209-214: [image.onerror] ([None]) or [image.onload]. *)
Definition initElement_load {browser : Browser} (rnd : tape)
    (element : HTMLDivElement) (image : option HTMLImageElement) (w : World)
  : settled unit * World :=
  match image with
  | Some image =>
      match render rnd element image w with
      | (Ok metadata, w) => (Resolved tt, set_instances (<[element := metadata]>) w)
      | (Throw _, w) => (Pending, w)
      end
  | None => (Rejected ErrorEvent, w)
  end.

(** The steps of one call run back to back, with the answers of the browser. *)
Definition initElement_steps {browser : Browser} (rnd : tape)
    (element : HTMLDivElement) (w : World) : settled unit * World :=
  match initElement_call element w with
  | Settled outcome => (outcome, w)
  | AwaitImage src => initElement_load rnd element (loadImage src) w
  | AwaitData text family weight =>
      match initElement_data element (textDataURL text family weight) w with
      | (Settled outcome, w) => (outcome, w)
      | (AwaitImage src, w) => initElement_load rnd element (loadImage src) w
      | (AwaitData _ _ _, w) => (Pending, w)
      end
  end.

(** The element as the promise executor of lines 203-215 finds it when
    [initElement] gets that far: with the data URL of its text as
    [data-lettercrap] (line 200) when it has a [data-lettercrap-text] whose
    image was made, and as it is on the page otherwise. *)
Definition sourced {browser : Browser} (element : HTMLDivElement) (w : World)
  : Element :=
  let el := document w element in
  if hasAttribute el "data-lettercrap-text" then
    let text := nullish (getAttribute el "data-lettercrap-text") (content (w_config w)) in
    let font_family :=
      nullish (getAttribute el "data-lettercrap-font-family") (font_family (w_config w)) in
    let font_weight :=
      nullish (getAttribute el "data-lettercrap-font-weight") (font_weight (w_config w)) in
    match textDataURL text font_family font_weight with
    | Resolved data => setAttribute "data-lettercrap" data el
    | _ => el
    end
  else el.

(** [w'] is [w] with [element] activated: one more timer, one more observer
    and the registry entry that holds them. *)
Definition activated (element : HTMLDivElement) (w w' : World) : Prop :=
  exists delay,
    instances w'
    = <[element := mkInstance (next_interval w) (next_observer w)]> (instances w)
    /\ intervals w' = <[next_interval w := (element, delay)]> (intervals w)
    /\ observers w' = <[next_observer w := element]> (observers w)
    /\ next_interval w' = S (next_interval w)
    /\ next_observer w' = S (next_observer w).

(** [w'] has the registry and the timers of [w], and its observers, or one
    more observer, on [element]. *)
Definition not_activated (element : HTMLDivElement) (w w' : World) : Prop :=
  instances w' = instances w
  /\ intervals w' = intervals w
  /\ next_interval w' = next_interval w
  /\ ((observers w' = observers w /\ next_observer w' = next_observer w)
      \/ (observers w' = <[next_observer w := element]> (observers w)
          /\ next_observer w' = S (next_observer w))).

(** The registry and the running timers and observers fit together: every
    entry holds a running timer and a connected observer of its element,
    every running timer is the timer of the entry of its element, and the
    ids in use are below the next ids. *)
Definition consistent (w : World) : Prop :=
  (forall e m, instances w !! e = Some m ->
     (exists delay, intervals w !! intervalId m = Some (e, delay))
     /\ observers w !! observer m = Some e)
  /\ (forall id e delay, intervals w !! id = Some (e, delay) ->
        exists m, instances w !! e = Some m /\ intervalId m = id)
  /\ (forall id, is_Some (intervals w !! id) -> id < next_interval w)
  /\ (forall o, is_Some (observers w !! o) -> o < next_observer w).

(** The words attribute has an empty segment: it is empty, begins or ends
    with a space, or has two spaces in a row. *)
Definition empty_segment (attr : jsstring) : Prop :=
  attr = []
  \/ (exists post, attr = SPACE :: post)
  \/ (exists pre, attr = pre ++ [SPACE])
  \/ (exists pre post, attr = pre ++ [SPACE; SPACE] ++ post).

(** A page with one [div], not initialized, whose palette attribute is
    blank. *)
Definition blankLettersWorld : World :=
  mkWorld config0 ∅
    (fun _ => mkElement {[ "data-lettercrap"%string := js "logo.png";
                           "data-lettercrap-letters"%string := js "  " ]} None [])
    ∅ ∅ 1 0.

(** A browser as [sampleBrowser] in which reading the canvas back fails. *)
Definition narrowBrowser : Browser := {|
  textDataURL := fun _ _ _ => Resolved (js "data:image/png;base64,iVBORw0KGgo=");
  loadImage := fun _ => Some 1%positive;
  heightPx := fun _ _ => js "0px";
  clientWidth := fun _ => Finite 3;
  clientHeight := fun _ => Finite 0;
  getImageData := fun _ _ _ => Throw "IndexSizeError";
  parseInt := fun _ => Finite 150;
  numberToString := fun _ => js "150";
|}.

(** * Properties *)

(** ** Validators *)

Lemma trimStart_nil_iff (s : jsstring) : trimStart s = [] <-> blank s.
Proof.
  unfold blank. induction s as [|c rest IH]; simpl.
  - split; [constructor | reflexivity].
  - destruct (isWhiteSpace c) eqn:Hc.
    + rewrite IH. split; intros Hall.
      * constructor; assumption.
      * inversion Hall; assumption.
    + split; [discriminate |].
      intros Hall. inversion Hall; congruence.
Qed.

Lemma trimStart_head (s : jsstring) (c : N) (rest : jsstring) :
  trimStart s = c :: rest -> isWhiteSpace c = false.
Proof.
  induction s as [|d s IH]; simpl; [discriminate |].
  destruct (isWhiteSpace d) eqn:Hd; [exact IH |].
  intros [= -> _]. exact Hd.
Qed.

Lemma trim_nil_iff (s : jsstring) : trim s = [] <-> blank s.
Proof.
  unfold trim, trimEnd. split.
  - intros Hnil. apply trimStart_nil_iff.
    destruct (trimStart s) as [|c rest] eqn:Hs; [reflexivity | exfalso].
    apply trimStart_head in Hs.
    assert (Hrev : trimStart (rev (c :: rest)) = []).
    { apply (f_equal (@rev N)) in Hnil. rewrite rev_involutive in Hnil. exact Hnil. }
    apply trimStart_nil_iff in Hrev. unfold blank in Hrev.
    rewrite Forall_forall in Hrev.
    specialize (Hrev c). rewrite Hrev in Hs; [discriminate |].
    apply list_elem_of_In, in_rev. rewrite rev_involutive. left; reflexivity.
  - intros Hb. apply trimStart_nil_iff in Hb. rewrite Hb. reflexivity.
Qed.

Lemma isStringNonBlank_false (s : jsstring) : isStringNonBlank s = false <-> blank s.
Proof.
  unfold isStringNonBlank. rewrite <- trim_nil_iff.
  destruct (trim s); simpl; split; intros; try reflexivity; discriminate.
Qed.

Lemma isArrayStringNonBlank_false (arr : list jsstring) :
  isArrayStringNonBlank arr = false <-> Exists blank arr.
Proof.
  unfold isArrayStringNonBlank. induction arr as [|word arr IH]; simpl.
  - split; [discriminate | intros Hex; inversion Hex].
  - rewrite andb_false_iff, IH, isStringNonBlank_false, Exists_cons. tauto.
Qed.

Lemma isNumberNonNegative_false (num : number) :
  isNumberNonNegative num = false <-> negative num \/ num = NaN.
Proof.
  destruct num as [q| | |]; simpl.
  - split.
    + intros Hle. left. apply Qnot_le_lt. intros Hq.
      apply Qle_bool_iff in Hq. congruence.
    + intros [Hlt | [=]]. destruct (Qle_bool 0 q) eqn:Hle; [| reflexivity].
      apply Qle_bool_iff in Hle. exfalso. exact (Qlt_not_le _ _ Hlt Hle).
  - split; [discriminate | intros [[] | [=]]].
  - split; [left; exact I | reflexivity].
  - split; [right; reflexivity | reflexivity].
Qed.

Lemma isConfigValid_false (c : Config) :
  isConfigValid c = false
  <-> rejected_settings (fun num => negative num \/ num = NaN) c.
Proof.
  unfold isConfigValid, rejected_settings. cbv zeta.
  rewrite !andb_false_iff, !isStringNonBlank_false, isArrayStringNonBlank_false,
    isNumberNonNegative_false.
  tauto.
Qed.

(** ** Global settings store *)

Lemma configure_invalid (config : Config) (userConfig : PartialConfig) :
  isConfigValid (spread config userConfig) = false ->
  configure userConfig config = (Throw "Invalid settings", config).
Proof. intros Hv. unfold configure. cbv zeta. rewrite Hv. reflexivity. Qed.

Lemma configure_valid (config : Config) (userConfig : PartialConfig) :
  isConfigValid (spread config userConfig) = true ->
  configure userConfig config = (Ok tt, spread config userConfig).
Proof.
  intros Hv. unfold configure. cbv zeta. rewrite Hv.
  destruct config, userConfig. reflexivity.
Qed.

Lemma assigned_nullish {A} (provided : option A) (old : A) :
  assigned provided old (nullish provided old).
Proof. destruct provided; reflexivity. Qed.

(** C1. [configure] is atomic: when the stored configuration merged with the
    present fields of the update is invalid, the call throws 'Invalid
    settings' and the store is what it was; when the merge is valid, the call
    returns and every provided field is stored (the others keep their value).
    In particular [configure({ content: "" })] throws and the stored content
    is unchanged, whatever the store holds. *)
Theorem configure_atomic (config : Config) (userConfig : PartialConfig) :
  (isConfigValid (spread config userConfig) = false ->
   configure userConfig config = (Throw "Invalid settings", config))
  /\ (isConfigValid (spread config userConfig) = true ->
      exists config',
        configure userConfig config = (Ok tt, config')
        /\ assigned (u_content userConfig) (content config) (content config')
        /\ assigned (u_letters userConfig) (letters config) (letters config')
        /\ assigned (u_words userConfig) (words config) (words config')
        /\ assigned (u_font_family userConfig) (font_family config) (font_family config')
        /\ assigned (u_font_weight userConfig) (font_weight config) (font_weight config')
        /\ assigned (u_update_interval userConfig) (update_interval config)
             (update_interval config'))
  /\ (let blankContent := mkPartial (Some (js "")) None None None None None in
      fst (configure blankContent config) = Throw "Invalid settings"
      /\ content (snd (configure blankContent config)) = content config).
Proof.
  split; [apply configure_invalid |]. split.
  - intros Hv. exists (spread config userConfig).
    split; [apply configure_valid; exact Hv |].
    simpl. repeat split; apply assigned_nullish.
  - cbv zeta. rewrite configure_invalid; [split; reflexivity |].
    reflexivity.
Qed.

Lemma configure_atomic_witness :
  configure (mkPartial None None (Some [js " "]) None None None) config0
  = (Throw "Invalid settings", config0)
  /\ exists config',
       configure (mkPartial None (Some (js "ab")) None None None None) config0
       = (Ok tt, config')
       /\ letters config' = js "ab" /\ content config' = js "LETTERCRAP".
Proof.
  split.
  - apply (proj1 (configure_atomic config0 _)). reflexivity.
  - destruct (proj1 (proj2 (configure_atomic config0
                (mkPartial None (Some (js "ab")) None None None None))))
      as (config' & Hrun & _ & Hletters & _); [reflexivity |].
    exists config'. split; [exact Hrun |]. split; [exact Hletters |].
    rewrite configure_valid in Hrun by reflexivity.
    injection Hrun as <-. reflexivity.
Defined.

Lemma configure_throws (config : Config) (userConfig : PartialConfig) :
  fst (configure userConfig config) = Throw "Invalid settings"
  <-> isConfigValid (spread config userConfig) = false.
Proof.
  destruct (isConfigValid (spread config userConfig)) eqn:Hv.
  - rewrite configure_valid by exact Hv. simpl. split; discriminate.
  - rewrite configure_invalid by exact Hv. simpl. split; reflexivity.
Qed.

(** C10 as stated fails: [configure({ update_interval: NaN })] throws on the
    default store, where no string is blank and the interval, [NaN], is not
    negative. *)
Lemma configure_NaN_throws :
  let update := mkPartial None None None None None (Some NaN) in
  fst (configure update config0) = Throw "Invalid settings"
  /\ ~ rejected_settings negative (spread config0 update).
Proof.
  cbv zeta. split; [reflexivity |].
  unfold rejected_settings. simpl.
  intros [Hb | [Hb | [Hb | []]]].
  - inversion Hb as [|? ? Hc _]. discriminate Hc.
  - inversion Hb as [|? ? Hc _]. discriminate Hc.
  - inversion Hb.
Qed.

Section ConfigureFonts.

Context {browser : Browser}.

(** C10, amended. [configure] throws 'Invalid settings' exactly when, in
    the merged configuration, the content is blank, the letters are blank,
    some word is blank, or the update interval is not [>= 0], that is
    negative or [NaN]; otherwise it returns. The two font fields play no
    part: replacing them in the update by anything never changes whether the
    call throws, and when it returns the given font strings are stored as
    they are. [initElement], on an element that carries
    [data-lettercrap-text], does reject a blank font family or a font weight
    outside [fontWeights]. *)
Theorem configure_throws_iff (config : Config) (userConfig : PartialConfig) :
  (fst (configure userConfig config) = Throw "Invalid settings"
   <-> rejected_settings (fun num => negative num \/ num = NaN)
         (spread config userConfig))
  /\ (~ rejected_settings (fun num => negative num \/ num = NaN)
          (spread config userConfig) ->
      fst (configure userConfig config) = Ok tt)
  /\ (forall family weight : jsstring,
        let update := with_fonts (Some family) (Some weight) userConfig in
        fst (configure update config) = fst (configure userConfig config)
        /\ (fst (configure update config) = Ok tt ->
            font_family (snd (configure update config)) = family
            /\ font_weight (snd (configure update config)) = weight))
  /\ (forall rnd element w,
        instances w !! element = None ->
        hasAttribute (document w element) "data-lettercrap-text" = true ->
        let family := nullish (getAttribute (document w element)
                                 "data-lettercrap-font-family")
                        (font_family (w_config w)) in
        let weight := nullish (getAttribute (document w element)
                                 "data-lettercrap-font-weight")
                        (font_weight (w_config w)) in
        blank family \/ weight ∉ fontWeights ->
        initElement rnd element w = (Rejected (Error "Invalid settings"), w)).
Proof.
  split; [rewrite configure_throws; apply isConfigValid_false |].
  split.
  { intros Hok. destruct (isConfigValid (spread config userConfig)) eqn:Hv.
    - rewrite configure_valid by exact Hv. reflexivity.
    - apply isConfigValid_false in Hv. contradiction. }
  split.
  { intros family weight update.
    assert (Hsame : isConfigValid (spread config update)
                    = isConfigValid (spread config userConfig)) by reflexivity.
    destruct (isConfigValid (spread config userConfig)) eqn:Hv.
    - rewrite (configure_valid config update) by exact Hsame.
      rewrite (configure_valid config userConfig) by exact Hv.
      split; [reflexivity | intros _; split; reflexivity].
    - rewrite (configure_invalid config update) by exact Hsame.
      rewrite (configure_invalid config userConfig) by exact Hv.
      split; [reflexivity | discriminate]. }
  intros rnd element w Hnone Htext family weight Hbad.
  unfold initElement. rewrite Hnone.
  rewrite bool_decide_eq_false_2 by (intros [? [=]]).
  rewrite Htext. fold family weight.
  assert (Hcheck : negb (isStringNonBlank family)
                   || negb (bool_decide (weight ∈ fontWeights)) = true).
  { destruct Hbad as [Hb | Hw].
    - apply isStringNonBlank_false in Hb. rewrite Hb. reflexivity.
    - rewrite (bool_decide_eq_false_2 _ Hw). apply orb_true_r. }
  rewrite <- orb_assoc, Hcheck, orb_true_r. reflexivity.
Qed.

End ConfigureFonts.

Lemma configure_throws_iff_witness :
  fst (configure (mkPartial None None None None None (Some NaN)) config0)
  = Throw "Invalid settings"
  /\ initElement (browser := sampleBrowser) half 1%positive heavyWorld
     = (Rejected (Error "Invalid settings"), heavyWorld).
Proof.
  split.
  - apply (proj1 (configure_throws_iff (browser := sampleBrowser) config0
                    (mkPartial None None None None None (Some NaN)))).
    right; right; right; right. reflexivity.
  - apply (proj2 (proj2 (proj2 (configure_throws_iff (browser := sampleBrowser)
                                  config0 noChange))));
      [reflexivity | reflexivity |].
    right. intros Hin. apply (bool_decide_eq_true_2 _) in Hin. discriminate Hin.
Defined.

(** ** Surface lifecycle *)

Section LifecycleFacts.

Context {browser : Browser}.

Lemma document_update_eq (element : HTMLDivElement) (f : Element -> Element)
    (w : World) :
  document (update_element element f w) element = f (document w element).
Proof. simpl. rewrite decide_True by reflexivity. reflexivity. Qed.

Lemma document_update_ne (element e : HTMLDivElement) (f : Element -> Element)
    (w : World) :
  e <> element -> document (update_element element f w) e = document w e.
Proof. intros Hne. simpl. rewrite decide_False by exact Hne. reflexivity. Qed.

(** [initElement] on a registered element returns at once. *)
Lemma initElement_registered (rnd : tape) (element : HTMLDivElement) (w : World) :
  is_Some (instances w !! element) -> initElement rnd element w = (Resolved tt, w).
Proof.
  intros Hreg. unfold initElement.
  rewrite bool_decide_eq_true_2 by exact Hreg. reflexivity.
Qed.

Lemma loadAndRender_resolved (rnd : tape) (element : HTMLDivElement) (w w' : World) :
  loadAndRender rnd element w = (Resolved tt, w') ->
  is_Some (instances w' !! element).
Proof.
  unfold loadAndRender. cbv zeta.
  destruct (negb (truthy _)); [discriminate |].
  destruct (loadImage _); [| discriminate].
  destruct (render rnd element _ w) as [[metadata | e] w1]; [| discriminate].
  intros [= <-]. simpl. rewrite lookup_insert_eq. eauto.
Qed.

(** When [initElement] resolves, the element is registered. *)
Lemma initElement_resolved (rnd : tape) (element : HTMLDivElement) (w w' : World) :
  initElement rnd element w = (Resolved tt, w') ->
  is_Some (instances w' !! element).
Proof.
  unfold initElement.
  destruct (bool_decide (is_Some (instances w !! element))) eqn:Hreg.
  - intros [= <-]. apply bool_decide_eq_true_1 in Hreg. exact Hreg.
  - cbv zeta. destruct (hasAttribute _ _); [| apply loadAndRender_resolved].
    destruct (_ || _); [discriminate |].
    destruct (textDataURL _ _ _); [apply loadAndRender_resolved | discriminate ..].
Qed.

(** C8. [initElement] on an element that the registry holds returns at once:
    the promise resolves and the world is the same, so no timer, observer or
    registry entry is added. Hence a second call after a call that resolved
    does nothing, and the registry, a map keyed by element identity, never
    lists an element twice. *)
Theorem initElement_idempotent (rnd : tape) (element : HTMLDivElement) (w : World) :
  (is_Some (instances w !! element) ->
   initElement rnd element w = (Resolved tt, w))
  /\ (forall w', initElement rnd element w = (Resolved tt, w') ->
      forall rnd', initElement rnd' element w' = (Resolved tt, w'))
  /\ NoDup (map fst (map_to_list (instances (snd (initElement rnd element w))))).
Proof.
  split; [apply initElement_registered |]. split.
  - intros w' Hfirst rnd'. apply initElement_registered.
    exact (initElement_resolved _ _ _ _ Hfirst).
  - apply NoDup_fst_map_to_list.
Qed.

Lemma write_agree (rnd : tape) (element : HTMLDivElement) (image : HTMLImageElement)
    (text : option jsstring) (ws : list jsstring) (ls : jsstring) (wa wb : World) :
  same_view element wa wb ->
  same_end (fst (write rnd element image text ws ls wa))
           (fst (write rnd element image text ws ls wb))
  /\ same_view element (snd (write rnd element image text ws ls wa))
                       (snd (write rnd element image text ws ls wb)).
Proof.
  intros [Hc Hd]. unfold write. cbv zeta. rewrite Hd.
  destruct (getImageData _ _ _) as [d | e]; [| repeat split; assumption].
  destruct (getTextContentWithImageAtSize _ _ _ _ _) as [t | e];
    [| repeat split; assumption].
  split; [exact I |]. split; [exact Hc |].
  cbn [snd]. rewrite !document_update_eq, Hd. reflexivity.
Qed.

Lemma render_agree (rnd : tape) (element : HTMLDivElement) (image : HTMLImageElement)
    (wa wb : World) :
  same_view element wa wb ->
  same_end (fst (render rnd element image wa)) (fst (render rnd element image wb))
  /\ same_view element (snd (render rnd element image wa))
                       (snd (render rnd element image wb)).
Proof.
  intros [Hc Hd]. unfold render. cbv zeta.
  rewrite !document_update_eq. cbn [w_config update_element].
  rewrite Hc, Hd.
  destruct (_ || _).
  - split; [reflexivity |]. split; [exact Hc |].
    cbn [snd]. rewrite !document_update_eq, Hd. reflexivity.
  - unfold observe.
    match goal with
    | |- context [write rnd element image None ?ws ?ls ?a] =>
        match goal with
        | |- context [write rnd element image None ws ls ?b] =>
            assert_fails (constr_eq a b);
            destruct (write_agree rnd element image None ws ls a b) as [He Hv]
        end
    end.
    { split; [exact Hc |]. simpl. rewrite !decide_True by reflexivity.
      rewrite Hd. reflexivity. }
    destruct (write _ _ _ _ _ _ _) as [[ta | ea] wa'];
      destruct (write _ _ _ _ _ _ _) as [[tb | eb] wb'];
      simpl in He, Hv; try contradiction.
    + split; [exact I |]. destruct Hv as [Hc' Hd']. split; assumption.
    + split; assumption.
Qed.

Lemma loadAndRender_agree (rnd : tape) (element : HTMLDivElement) (wa wb : World) :
  same_view element wa wb ->
  fst (loadAndRender rnd element wa) = fst (loadAndRender rnd element wb)
  /\ same_view element (snd (loadAndRender rnd element wa))
                       (snd (loadAndRender rnd element wb)).
Proof.
  intros Hv. pose proof Hv as [Hc Hd]. unfold loadAndRender. cbv zeta. rewrite Hd.
  destruct (negb (truthy _)); [split; [reflexivity | exact Hv] |].
  destruct (loadImage _) as [image |]; [| split; [reflexivity | exact Hv]].
  destruct (render_agree rnd element image wa wb Hv) as [He Hv'].
  destruct (render rnd element image wa) as [[ma | ea] wa'];
    destruct (render rnd element image wb) as [[mb | eb] wb'];
    simpl in He; try contradiction; split; try reflexivity; exact Hv'.
Qed.

(** The outcome of [initElement] on an element that is not registered, and
    the state it leaves the element in, depend on the world only through the
    settings and the state of that element. *)
Lemma initElement_agree (rnd : tape) (element : HTMLDivElement) (wa wb : World) :
  instances wa !! element = None ->
  instances wb !! element = None ->
  same_view element wa wb ->
  fst (initElement rnd element wa) = fst (initElement rnd element wb)
  /\ same_view element (snd (initElement rnd element wa))
                       (snd (initElement rnd element wb)).
Proof.
  intros Ha Hb Hv. pose proof Hv as [Hc Hd]. unfold initElement.
  rewrite Ha, Hb, bool_decide_eq_false_2 by (intros [? [=]]).
  cbv zeta. rewrite Hc, Hd.
  destruct (hasAttribute _ _); [| apply loadAndRender_agree; exact Hv].
  destruct (_ || _); [split; [reflexivity | exact Hv] |].
  destruct (textDataURL _ _ _) as [url | reason |];
    [| split; [reflexivity | exact Hv] ..].
  apply loadAndRender_agree. split; [exact Hc |].
  rewrite !document_update_eq, Hd. reflexivity.
Qed.

Lemma render_keeps (rnd : tape) (element : HTMLDivElement) (image : HTMLImageElement)
    (w : World) :
  w_config (snd (render rnd element image w)) = w_config w
  /\ attributes (document (snd (render rnd element image w)) element)
     = attributes (document w element).
Proof.
  unfold render, write, observe, setInterval. cbv zeta.
  repeat match goal with
         | |- context [match ?x with _ => _ end] =>
             lazymatch x with
             | context [match _ with _ => _ end] => fail
             | _ => destruct x
             end
         end;
    simpl; rewrite ?decide_True by reflexivity; split; reflexivity.
Qed.

Lemma loadAndRender_keeps (rnd : tape) (element : HTMLDivElement) (w : World) :
  w_config (snd (loadAndRender rnd element w)) = w_config w
  /\ attributes (document (snd (loadAndRender rnd element w)) element)
     = attributes (document w element).
Proof.
  unfold loadAndRender. cbv zeta.
  destruct (negb (truthy _)); [split; reflexivity |].
  destruct (loadImage _) as [image |]; [| split; reflexivity].
  pose proof (render_keeps rnd element image w) as Hk.
  destruct (render rnd element image w) as [[m | e] w']; exact Hk.
Qed.

Lemma getAttribute_setAttribute_ne (name other : string) (value : jsstring)
    (el : Element) :
  name <> other ->
  getAttribute (setAttribute name value el) other = getAttribute el other.
Proof. intros Hne. unfold getAttribute. simpl. apply lookup_insert_ne, Hne. Qed.

Lemma hasAttribute_setAttribute_ne (name other : string) (value : jsstring)
    (el : Element) :
  name <> other ->
  hasAttribute (setAttribute name value el) other = hasAttribute el other.
Proof.
  intros Hne. unfold hasAttribute. simpl. rewrite lookup_insert_ne by exact Hne.
  reflexivity.
Qed.

Lemma setAttribute_twice (name : string) (value : jsstring) (el : Element) :
  setAttribute name value (setAttribute name value el) = setAttribute name value el.
Proof. unfold setAttribute. simpl. rewrite insert_insert_eq. reflexivity. Qed.

Lemma resetElement_registered (element : HTMLDivElement) (w : World)
    (metadata : InitializedInstance) :
  instances w !! element = Some metadata ->
  resetElement element w
  = (Resolved tt,
     update_element element (set_style_height [])
       (update_element element (set_textContent None)
          (set_instances (delete element) (destroy metadata w)))).
Proof. intros Hreg. unfold resetElement. rewrite Hreg. reflexivity. Qed.

(** Activation, deactivation, activation: when [initElement] resolved on an
    element with no text and no forced height, it resolves again after
    [resetElement]. *)
Lemma reactivation_resolves (rnd : tape) (element : HTMLDivElement) (w w1 : World) :
  instances w !! element = None ->
  textContent (document w element) = None ->
  style_height (document w element) = [] ->
  initElement rnd element w = (Resolved tt, w1) ->
  exists w2 w3,
    resetElement element w1 = (Resolved tt, w2)
    /\ initElement rnd element w2 = (Resolved tt, w3)
    /\ is_Some (instances w3 !! element).
Proof.
  intros Hnone Htext Hheight Hinit.
  destruct (initElement_resolved _ _ _ _ Hinit) as [metadata Hreg].
  rewrite (resetElement_registered _ _ _ Hreg).
  set (w2 := update_element element _ _).
  assert (Hnone2 : instances w2 !! element = None) by apply lookup_delete_eq.
  assert (Hdoc2 : document w2 element
                  = mkElement (attributes (document w1 element)) None []).
  { unfold w2. rewrite !document_update_eq. reflexivity. }
  assert (Hgoal : fst (initElement rnd element w2) = Resolved tt).
  { pose proof Hinit as Hrun. unfold initElement in Hrun.
    rewrite Hnone, bool_decide_eq_false_2 in Hrun by (intros [? [=]]).
    cbv zeta in Hrun.
    destruct (hasAttribute (document w element) "data-lettercrap-text") eqn:Hhas.
    - destruct (_ || _) eqn:Hcheck in Hrun; [discriminate |].
      destruct (textDataURL _ _ _) as [url | |] eqn:Hurl in Hrun;
        [| discriminate ..].
      set (w' := update_element element (setAttribute "data-lettercrap" url) w)
        in Hrun.
      destruct (loadAndRender_keeps rnd element w') as [Hc Hattrs].
      rewrite Hrun in Hc, Hattrs. cbn [snd] in Hc, Hattrs.
      assert (Hdoc' : document w' element
                      = setAttribute "data-lettercrap" url (document w element)).
      { unfold w'. apply document_update_eq. }
      assert (Hview : same_view element w2 w').
      { split; [exact Hc |]. rewrite Hdoc2, Hattrs, Hdoc'.
        unfold setAttribute. rewrite Htext, Hheight. reflexivity. }
      destruct (initElement_agree rnd element w2 w' Hnone2 Hnone Hview) as [-> _].
      unfold initElement.
      replace (instances w' !! element) with (@None InitializedInstance)
        by (symmetry; exact Hnone).
      rewrite bool_decide_eq_false_2 by (intros [? [=]]).
      cbv zeta. rewrite Hdoc'.
      rewrite hasAttribute_setAttribute_ne, !getAttribute_setAttribute_ne by done.
      rewrite Hhas. change (w_config w') with (w_config w).
      rewrite Hcheck, Hurl.
      destruct (loadAndRender_agree rnd element
                  (update_element element (setAttribute "data-lettercrap" url) w') w')
        as [-> _].
      { split; [reflexivity |].
        rewrite document_update_eq, Hdoc'. apply setAttribute_twice. }
      rewrite Hrun. reflexivity.
    - destruct (loadAndRender_keeps rnd element w) as [Hc Hattrs].
      rewrite Hrun in Hc, Hattrs. cbn [snd] in Hc, Hattrs.
      assert (Hview : same_view element w2 w).
      { split; [exact Hc |]. rewrite Hdoc2, Hattrs.
        destruct (document w element); simpl in *; subst; reflexivity. }
      destruct (initElement_agree rnd element w2 w Hnone2 Hnone Hview) as [-> _].
      rewrite Hinit. reflexivity. }
  destruct (initElement rnd element w2) as [outcome w3] eqn:Hagain.
  simpl in Hgoal. subst outcome.
  exists w2, w3. split; [reflexivity |]. split; [exact Hagain |].
  exact (initElement_resolved _ _ _ _ Hagain).
Qed.

(** C9. [resetElement] on an element without registry entry rejects with
    'Element not initialized' and leaves the world as it is. On a registered
    element it resolves, and then: the timer of the entry is cleared and its
    observer disconnected, the entry is gone, the element has no text
    content and no forced height, and nothing else has changed. After that
    [initElement] treats the element as one that was never initialized: its
    outcome and the state it leaves the element in are those it has in any
    world with the same settings where the element looks the same and is not
    registered; and an activation that resolved on an element without text
    and forced height resolves again after the reset. *)
Theorem resetElement_spec (element : HTMLDivElement) (w : World) :
  (instances w !! element = None ->
   resetElement element w = (Rejected (Error "Element not initialized"), w))
  /\ (forall metadata, instances w !! element = Some metadata ->
      exists w',
        resetElement element w = (Resolved tt, w')
        /\ intervals w' = delete (intervalId metadata) (intervals w)
        /\ observers w' = delete (observer metadata) (observers w)
        /\ instances w' = delete element (instances w)
        /\ document w' element = mkElement (attributes (document w element)) None []
        /\ (forall e, e <> element -> document w' e = document w e)
        /\ w_config w' = w_config w
        /\ (forall rnd fresh,
              instances fresh !! element = None ->
              same_view element w' fresh ->
              fst (initElement rnd element w') = fst (initElement rnd element fresh)
              /\ same_view element (snd (initElement rnd element w'))
                                   (snd (initElement rnd element fresh))))
  /\ (forall rnd w1,
        instances w !! element = None ->
        textContent (document w element) = None ->
        style_height (document w element) = [] ->
        initElement rnd element w = (Resolved tt, w1) ->
        exists w2 w3,
          resetElement element w1 = (Resolved tt, w2)
          /\ initElement rnd element w2 = (Resolved tt, w3)
          /\ is_Some (instances w3 !! element)).
Proof.
  split; [| split].
  - intros Hnone. unfold resetElement. rewrite Hnone. reflexivity.
  - intros metadata Hreg. eexists. split; [apply resetElement_registered, Hreg |].
    repeat split; try reflexivity.
    + rewrite !document_update_eq. reflexivity.
    + intros e Hne. rewrite !document_update_ne by exact Hne. reflexivity.
    + apply initElement_agree; [apply lookup_delete_eq | assumption ..].
    + apply initElement_agree; [apply lookup_delete_eq | assumption ..].
    + apply initElement_agree; [apply lookup_delete_eq | assumption ..].
  - intros rnd w1. apply reactivation_resolves.
Qed.

End LifecycleFacts.

Lemma resetElement_spec_witness :
  resetElement 2%positive activeWorld
  = (Rejected (Error "Element not initialized"), activeWorld)
  /\ (exists w', resetElement 1%positive activeWorld = (Resolved tt, w')
                 /\ document w' 1%positive = imageDiv)
  /\ exists w2 w3,
       resetElement 1%positive
         (snd (initElement (browser := sampleBrowser) half 1%positive idleWorld))
       = (Resolved tt, w2)
       /\ initElement (browser := sampleBrowser) half 1%positive w2 = (Resolved tt, w3).
Proof.
  split; [| split].
  - apply (proj1 (resetElement_spec (browser := sampleBrowser) 2%positive activeWorld)).
    reflexivity.
  - destruct (proj1 (proj2 (resetElement_spec (browser := sampleBrowser) 1%positive
                              activeWorld)) (mkInstance 1 0) eq_refl)
      as (w' & Hrun & _ & _ & _ & Hdoc & _).
    exists w'. split; [exact Hrun | exact Hdoc].
  - destruct (proj2 (proj2 (resetElement_spec (browser := sampleBrowser) 1%positive
                              idleWorld)) half
                (snd (initElement (browser := sampleBrowser) half 1%positive idleWorld))
                eq_refl eq_refl eq_refl)
      as (w2 & w3 & Hreset & Hagain & _).
    + vm_compute. reflexivity.
    + exists w2, w3. split; [exact Hreset | exact Hagain].
Defined.

Lemma initElement_idempotent_witness :
  initElement (browser := sampleBrowser) half 1%positive activeWorld
  = (Resolved tt, activeWorld).
Proof.
  apply (proj1 (initElement_idempotent (browser := sampleBrowser) half 1%positive
                  activeWorld)).
  exists (mkInstance 1 0). reflexivity.
Defined.

(** ** Frame compositor: the draws *)

Lemma Qltb_true (a b : Q) : Qltb a b = true <-> (a < b)%Q.
Proof.
  unfold Qltb. rewrite negb_true_iff. split.
  - intros Hle. apply Qnot_le_lt. intros Hba. apply Qle_bool_iff in Hba. congruence.
  - intros Hlt. destruct (Qle_bool b a) eqn:Hle; [| reflexivity].
    apply Qle_bool_iff in Hle. exfalso. exact (Qlt_not_le _ _ Hlt Hle).
Qed.

Lemma Qltb_false (a b : Q) : Qltb a b = false <-> (b <= a)%Q.
Proof.
  unfold Qltb. rewrite negb_false_iff. apply Qle_bool_iff.
Qed.

Lemma shouldReplaceExistingText_absent (rnd : tape) (existingText : option jsstring)
    (n : nat) :
  truthy existingText = false ->
  shouldReplaceExistingText rnd existingText n = (true, n).
Proof. intros Hf. unfold shouldReplaceExistingText. rewrite Hf. reflexivity. Qed.

Lemma shouldReplaceExistingText_present (rnd : tape) (existingText : option jsstring)
    (n : nat) :
  truthy existingText = true ->
  shouldReplaceExistingText rnd existingText n = (Qltb (rnd n) (1 # 10), S n).
Proof. intros Ht. unfold shouldReplaceExistingText. rewrite Ht. reflexivity. Qed.

(** A draw from the unit interval picks an element of a non-empty list. *)
Lemma randomChoice_in {T} (rnd : tape) (list : list T) (n : nat) :
  in_unit rnd -> list <> [] ->
  exists x, randomChoice rnd list n = (Some x, S n) /\ In x list.
Proof.
  intros Hunit Hne. unfold randomChoice, bind, Math_random, ret, at_index.
  destruct (Hunit n) as [H0 H1].
  set (len := Z.of_nat (length list)).
  assert (Hlen : (0 < len)%Z).
  { unfold len. destruct list; [congruence | simpl; lia]. }
  set (k := Qfloor (rnd n * inject_Z len)).
  assert (Hk0 : (0 <= k)%Z).
  { change 0%Z with (Qfloor 0). apply Qfloor_resp_le.
    apply Qmult_le_0_compat; [exact H0 |].
    change 0%Q with (inject_Z 0). rewrite <- Zle_Qle. lia. }
  assert (Hk1 : (k < len)%Z).
  { rewrite Zlt_Qlt. apply Qle_lt_trans with (rnd n * inject_Z len)%Q.
    - apply Qfloor_le.
    - rewrite <- (Qmult_1_l (inject_Z len)) at 2.
      apply Qmult_lt_compat_r; [| exact H1].
      change 0%Q with (inject_Z 0). rewrite <- Zlt_Qlt. exact Hlen. }
  destruct (k <? 0)%Z eqn:Hneg; [lia |].
  destruct (nth_error list (Z.to_nat k)) as [x |] eqn:Hx.
  - exists x. split; [reflexivity |]. exact (nth_error_In _ _ Hx).
  - apply nth_error_None in Hx. unfold len in Hk1. lia.
Qed.

Lemma wordGuard_true (rnd : tape) (existingText : option jsstring)
    (words : list jsstring) (n : nat) :
  fst (wordGuard rnd existingText words n) = true
  <-> words <> []
      /\ (rnd n < 5 # 100)%Q
      /\ (truthy existingText = false \/ (rnd (S n) < 1 # 10)%Q).
Proof.
  unfold wordGuard. destruct words as [| word more]; simpl.
  - split; [discriminate | intros [Hne _]; congruence].
  - unfold shouldReplaceWord, bind, Math_random, ret.
    destruct (Qltb (rnd n) (5 # 100)) eqn:Hw.
    + apply Qltb_true in Hw.
      destruct (truthy existingText) eqn:Ht.
      * rewrite shouldReplaceExistingText_present by exact Ht. simpl.
        rewrite Qltb_true. split.
        -- intros Hr. split; [discriminate |]. split; [exact Hw | right; exact Hr].
        -- intros (_ & _ & [Hf | Hr]); [discriminate | exact Hr].
      * rewrite shouldReplaceExistingText_absent by exact Ht. simpl.
        split; [| reflexivity].
        intros _. split; [discriminate |]. split; [exact Hw | left; reflexivity].
    + simpl. split; [discriminate |].
      intros (_ & Hlt & _). apply Qltb_true in Hlt. congruence.
Qed.

(** C2 as stated fails: with previous text [ab], the word [X] and the draws
    0.5, 0.01, 0.01, ..., the first cell keeps its previous character (the
    replacement test fails on the draw 0.5), and yet the guard of the word
    injection holds there, on a second evaluation of the test, and the word
    overwrites the cell. *)
Lemma word_injected_after_reuse :
  let existingText := Some (js "ab") in
  let words := [js "X"] in
  let letters := js "01" in
  fst (shouldReplaceExistingText halfThenLow existingText 0) = false
  /\ emitChar halfThenLow existingText letters 0 0 = (js "a", 1)
  /\ fst (wordGuard halfThenLow existingText words 1) = true
  /\ getTextContentWithImageAtSize halfThenLow (mkImageData 1 1 darkPixel)
       existingText words letters
     = Ok (js "X" ++ [LF]).
Proof. cbv zeta. repeat split; vm_compute; reflexivity. Qed.

(** C2, amended. At a filled cell the guard of the word injection holds
    exactly when at least one word is configured, the draw of
    [shouldReplaceWord] is below 0.05, and a further evaluation of
    [shouldReplaceExistingText] succeeds: at once when there is no previous
    text, on a draw of its own below 0.1 otherwise. That evaluation is not the
    one that chose the character of the cell. Without previous text the
    character of the cell was replaced anyway; and when the guard fails, the
    cell contributes the emitted character and nothing else. *)
Theorem word_injection_guard (rnd : tape) (existingText : option jsstring)
    (words : list jsstring) (letters : jsstring) (st : LoopState) :
  let emitted := emitChar rnd existingText letters (i st) (draws st) in
  let n := snd emitted in
  (fst (wordGuard rnd existingText words n) = true
   <-> words <> []
       /\ (rnd n < 5 # 100)%Q
       /\ (truthy existingText = false \/ (rnd (S n) < 1 # 10)%Q))
  /\ (truthy existingText = false ->
      fst (shouldReplaceExistingText rnd existingText (draws st)) = true)
  /\ (fst (wordGuard rnd existingText words n) = false ->
      chars (filledCell rnd existingText words letters st) = chars st ++ fst emitted).
Proof.
  cbv zeta. split; [apply wordGuard_true |]. split.
  - intros Hf. rewrite shouldReplaceExistingText_absent by exact Hf. reflexivity.
  - intros Hg. unfold filledCell.
    destruct (emitChar rnd existingText letters (i st) (draws st)) as [c n1].
    simpl in Hg |- *.
    destruct (wordGuard rnd existingText words n1) as [g n2].
    simpl in Hg. subst g. reflexivity.
Qed.

Lemma word_injection_guard_witness :
  fst (wordGuard low None [js "X"] 1) = true
  /\ chars (filledCell half (Some (js "ab")) [js "X"] (js "01") (initialLoop 0))
     = js "a".
Proof.
  split.
  - apply (proj1 (word_injection_guard low None [js "X"] (js "01") (initialLoop 0))).
    split; [discriminate |]. split; [reflexivity | left; reflexivity].
  - apply (proj2 (proj2 (word_injection_guard half (Some (js "ab")) [js "X"] (js "01")
                           (initialLoop 0)))).
    reflexivity.
Defined.

(** Past the end of a non-empty previous text, a failed replacement test
    leaves [existingText[i]] undefined, and [chars += undefined] appends the
    text [undefined]. *)
Lemma emitChar_out_of_range (rnd : tape) (previous : jsstring) (letters : jsstring)
    (k n : nat) :
  previous <> [] -> length previous <= k -> (1 # 10 <= rnd n)%Q ->
  emitChar rnd (Some previous) letters k n = (js "undefined", S n).
Proof.
  intros Hne Hk Hhigh. unfold emitChar, bind.
  rewrite shouldReplaceExistingText_present
    by (destruct previous; [congruence | reflexivity]).
  apply Qltb_false in Hhigh. rewrite Hhigh. unfold ret. simpl.
  replace (nth_error previous k) with (@None N); [reflexivity |].
  symmetry. apply nth_error_None. exact Hk.
Qed.

(** C3. With previous text [0] on a grid of two filled cells and draws of
    0.5, the second cell, whose index is past the end of the previous text,
    gets the text [undefined] and not a character of the palette [01]. *)
Theorem short_existingText_emits_undefined :
  truthy (option_map stripLineBreaks (Some (js "0"))) = true
  /\ emitChar half (Some (js "0")) (js "01") 1 1 = (js "undefined", 2)
  /\ getTextContentWithImageAtSize half (mkImageData 2 1 (darkPixel ++ darkPixel))
       (Some (js "0")) [] (js "01")
     = Ok (js "0undefined" ++ [LF]).
Proof. repeat split; vm_compute; reflexivity. Qed.

(** ** Frame compositor: the loops *)

Lemma cell_sampleAt (rnd : tape) (existingText : option jsstring)
    (words : list jsstring) (letters : jsstring) (d : ImageData) (st : LoopState) :
  cell rnd existingText words letters d st
  = match sampleAt d (i st) with
    | Some (r, g, b, a) =>
        if filled r g b a then Ok (filledCell rnd existingText words letters st)
        else Ok (emptyCell st)
    | None => Throw "Array index out of bound"
    end.
Proof.
  unfold cell, sampleAt.
  destruct (firstn 4 (skipn (i st * 4) (data d))) as [| r [| g [| b [| a rest]]]];
    reflexivity.
Qed.

(** C4. The classification of a cell is a function of its four samples
    alone: the turn of the loop for a cell reads the samples and takes the
    filled branch when [filled] holds of them and the empty branch otherwise.
    A cell is filled exactly when its red sample is below 120 and its alpha
    sample is at least 50; green and blue play no part. So a sample with red
    255 is never filled, one with red 0 and alpha 255 always is, and one with
    alpha 0 never is, whatever its red. *)
Theorem filled_iff_dark_and_opaque :
  (forall rnd existingText words letters d st,
     cell rnd existingText words letters d st
     = match sampleAt d (i st) with
       | Some (r, g, b, a) =>
           if filled r g b a then Ok (filledCell rnd existingText words letters st)
           else Ok (emptyCell st)
       | None => Throw "Array index out of bound"
       end)
  /\ (forall r g b a : Z, filled r g b a = true <-> (r < 120 /\ a >= 50)%Z)
  /\ (forall r g b a g' b' : Z, filled r g b a = filled r g' b' a)
  /\ (forall g b a : Z, filled 255 g b a = false)
  /\ (forall g b : Z, filled 0 g b 255 = true)
  /\ (forall r g b : Z, filled r g b 0 = false).
Proof.
  split; [exact cell_sampleAt |].
  repeat split.
  - unfold filled in H. apply andb_true_iff in H as [Hr _]. lia.
  - unfold filled in H. apply andb_true_iff in H as [_ Ha].
    apply negb_true_iff in Ha. lia.
  - intros [Hr Ha]. unfold filled. apply andb_true_iff. split; [lia |].
    apply negb_true_iff. lia.
  - intros r g b. unfold filled. simpl. apply andb_false_r.
Qed.

Lemma sampleAt_covered (d : ImageData) (k : nat) :
  covers d -> k < width d * height d -> is_Some (sampleAt d k).
Proof.
  unfold covers, sampleAt. intros Hc Hk.
  assert (Hlen : length (firstn 4 (skipn (k * 4) (data d))) = 4).
  { rewrite length_firstn, length_skipn. lia. }
  destruct (firstn 4 (skipn (k * 4) (data d))) as [| r [| g [| b [| a rest]]]];
    simpl in Hlen; try lia.
  eauto.
Qed.

Lemma forX_reachable (rnd : tape) (existingText : option jsstring)
    (words : list jsstring) (letters : jsstring) (d : ImageData)
    (n : nat) (st st' : LoopState) :
  reachable rnd existingText words letters d st ->
  forX rnd existingText words letters d n st = Ok st' ->
  reachable rnd existingText words letters d st'.
Proof.
  revert st. induction n as [| n IH]; intros st Hreach; simpl.
  - intros [= <-]. exact Hreach.
  - destruct (cell rnd existingText words letters d st) as [st1 | e] eqn:Hcell;
      [| discriminate].
    apply IH. exact (reach_cell _ _ _ _ _ _ _ Hreach Hcell).
Qed.

(** Every state that a run of the compositor passes through between two
    turns is reachable, and so is the one it ends in. *)
Lemma forY_reachable (rnd : tape) (existingText : option jsstring)
    (words : list jsstring) (letters : jsstring) (d : ImageData)
    (m : nat) (st st' : LoopState) :
  reachable rnd existingText words letters d st ->
  forY rnd existingText words letters d m st = Ok st' ->
  reachable rnd existingText words letters d st'.
Proof.
  revert st. induction m as [| m IH]; intros st Hreach; simpl.
  - intros [= <-]. exact Hreach.
  - destruct (forX rnd existingText words letters d (width d) st) as [st1 | e] eqn:Hrow;
      [| discriminate].
    apply IH. apply reach_row. exact (forX_reachable _ _ _ _ _ _ _ _ Hreach Hrow).
Qed.

(** The inner loop, when every turn of the run appends one code unit that is
    right for its cell. *)
Lemma forX_cells (rnd : tape) (existingText : option jsstring)
    (words : list jsstring) (letters : jsstring) (d : ImageData)
    (cellOK : nat -> N -> Prop) (bound : nat) :
  (forall st, reachable rnd existingText words letters d st -> i st < bound ->
     exists c st', cell rnd existingText words letters d st = Ok st'
                   /\ chars st' = chars st ++ [c] /\ i st' = S (i st)
                   /\ cellOK (i st) c) ->
  forall n st, reachable rnd existingText words letters d st -> i st + n <= bound ->
    exists row st', forX rnd existingText words letters d n st = Ok st'
                    /\ chars st' = chars st ++ row /\ i st' = i st + n
                    /\ Forall2 cellOK (seq (i st) n) row.
Proof.
  intros Hstep. induction n as [| n IH]; intros st Hreach Hn.
  - exists [], st. simpl. rewrite app_nil_r.
    repeat split; [lia | constructor].
  - destruct (Hstep st Hreach) as (c & st1 & Hcell & Hchars & Hi & Hc); [lia |].
    destruct (IH st1) as (row & st' & Hrun & Hchars' & Hi' & Hrow);
      [exact (reach_cell _ _ _ _ _ _ _ Hreach Hcell) | lia |].
    exists (c :: row), st'. simpl. rewrite Hcell.
    split; [exact Hrun |]. split; [| split].
    + rewrite Hchars', Hchars, <- app_assoc. reflexivity.
    + lia.
    + constructor; [exact Hc |]. rewrite <- Hi. exact Hrow.
Qed.

(** The outer loop, under the same condition. *)
Lemma forY_rows (rnd : tape) (existingText : option jsstring)
    (words : list jsstring) (letters : jsstring) (d : ImageData)
    (cellOK : nat -> N -> Prop) (bound : nat) :
  (forall st, reachable rnd existingText words letters d st -> i st < bound ->
     exists c st', cell rnd existingText words letters d st = Ok st'
                   /\ chars st' = chars st ++ [c] /\ i st' = S (i st)
                   /\ cellOK (i st) c) ->
  forall m st, reachable rnd existingText words letters d st ->
    i st + m * width d <= bound ->
    exists rows st', forY rnd existingText words letters d m st = Ok st'
      /\ chars st' = chars st ++ concat (map (fun row => row ++ [LF]) rows)
      /\ Forall2 (fun y row => Forall2 cellOK (seq (i st + y * width d) (width d)) row)
           (seq 0 m) rows.
Proof.
  intros Hstep. induction m as [| m IH]; intros st Hreach Hm.
  - exists [], st. simpl. rewrite app_nil_r. repeat split. constructor.
  - destruct (forX_cells _ _ _ _ _ _ _ Hstep (width d) st Hreach)
      as (row & st1 & Hrun & Hchars & Hi & Hrow); [lia |].
    destruct (IH (endOfRow st1)) as (rows & st' & Hrun' & Hchars' & Hrows);
      [apply reach_row; exact (forX_reachable _ _ _ _ _ _ _ _ Hreach Hrun)
      | simpl; lia |].
    exists (row :: rows), st'. simpl. rewrite Hrun.
    split; [exact Hrun' |]. split.
    + rewrite Hchars'. simpl. rewrite Hchars, <- !app_assoc. reflexivity.
    + constructor.
      * rewrite Nat.add_0_r. exact Hrow.
      * rewrite <- seq_shift. apply Forall2_fmap_l.
        eapply Forall2_impl; [exact Hrows |]. intros y r Hr.
        simpl in Hr. rewrite Hi in Hr. unfold compose.
        replace (i st + S y * width d) with (i st + width d + y * width d) by lia.
        exact Hr.
Qed.

(** The whole run, under the same condition. *)
Lemma compositor_grid (rnd : tape) (existingText : option jsstring)
    (words : list jsstring) (letters : jsstring) (d : ImageData)
    (cellOK : nat -> N -> Prop) :
  (forall st,
     reachable rnd (option_map stripLineBreaks existingText) words letters d st ->
     i st < width d * height d ->
     exists c st',
       cell rnd (option_map stripLineBreaks existingText) words letters d st = Ok st'
       /\ chars st' = chars st ++ [c] /\ i st' = S (i st) /\ cellOK (i st) c) ->
  exists text,
    getTextContentWithImageAtSize rnd d existingText words letters = Ok text
    /\ text_of_grid cellOK d text.
Proof.
  intros Hstep. unfold getTextContentWithImageAtSize. cbv zeta.
  destruct (forY_rows _ _ _ _ _ _ _ Hstep (height d) (initialLoop 0))
    as (rows & st' & Hrun & Hchars & Hrows); [apply reach_start | simpl; lia |].
  rewrite Hrun. exists (chars st'). split; [reflexivity |].
  exists rows. split; [exact Hchars | exact Hrows].
Qed.

Lemma filledCell_no_word (rnd : tape) (existingText : option jsstring)
    (words : list jsstring) (letters : jsstring) (st : LoopState)
    (c : jsstring) (n : nat) :
  emitChar rnd existingText letters (i st) (draws st) = (c, n) ->
  fst (wordGuard rnd existingText words n) = false ->
  filledCell rnd existingText words letters st
  = mkLoop (chars st ++ c)
      (Some (default (i st) (start_of_filled_in_sequence st)))
      (S (i st)) (snd (wordGuard rnd existingText words n)).
Proof.
  intros Hemit Hg. unfold filledCell. rewrite Hemit.
  destruct (wordGuard rnd existingText words n) as [g n2].
  simpl in Hg. subst g. reflexivity.
Qed.

Lemma emitChar_absent (rnd : tape) (existingText : option jsstring)
    (letters : jsstring) (k n : nat) :
  in_unit rnd -> letters <> [] -> truthy existingText = false ->
  exists c, emitChar rnd existingText letters k n = ([c], S n) /\ In c letters.
Proof.
  intros Hunit Hne Hf. unfold emitChar, bind.
  rewrite shouldReplaceExistingText_absent by exact Hf.
  destruct (randomChoice_in rnd letters n Hunit Hne) as (c & Hc & Hin).
  rewrite Hc. exists c. split; [reflexivity | exact Hin].
Qed.

Lemma emitChar_reuse (rnd : tape) (previous : jsstring) (letters : jsstring)
    (k n : nat) :
  (1 # 10 <= rnd n)%Q -> k < length previous ->
  emitChar rnd (Some previous) letters k n = ([nth k previous SPACE], S n).
Proof.
  intros Hhigh Hk. unfold emitChar, bind.
  rewrite shouldReplaceExistingText_present
    by (destruct previous; [simpl in Hk; lia | reflexivity]).
  apply Qltb_false in Hhigh. rewrite Hhigh. unfold ret. simpl.
  rewrite (nth_error_nth' previous SPACE Hk). reflexivity.
Qed.

Lemma wordGuard_high (rnd : tape) (existingText : option jsstring)
    (words : list jsstring) (n : nat) :
  (forall k, (1 # 10 <= rnd k)%Q) ->
  fst (wordGuard rnd existingText words n) = false.
Proof.
  intros Hhigh. destruct (fst (wordGuard rnd existingText words n)) eqn:Hg;
    [| reflexivity].
  apply wordGuard_true in Hg as (_ & Hlt & _). exfalso.
  apply (Qlt_not_le _ _ Hlt). apply Qle_trans with (1 # 10)%Q; [| apply Hhigh].
  discriminate.
Qed.

(** One turn of the first frame when no word is configured. *)
Lemma cell_first_frame (rnd : tape) (existingText : option jsstring)
    (letters : jsstring) (d : ImageData) (st : LoopState) :
  in_unit rnd -> letters <> [] -> truthy existingText = false -> covers d ->
  i st < width d * height d ->
  exists c st', cell rnd existingText [] letters d st = Ok st'
    /\ chars st' = chars st ++ [c] /\ i st' = S (i st)
    /\ (if filledAt d (i st) then In c letters else c = SPACE).
Proof.
  intros Hunit Hne Hf Hcov Hi. rewrite cell_sampleAt. unfold filledAt.
  destruct (sampleAt_covered d (i st) Hcov Hi) as [[[[r g] b] a] Hs].
  rewrite Hs. destruct (filled r g b a).
  - destruct (emitChar_absent rnd existingText letters (i st) (draws st) Hunit Hne Hf)
      as (c & Hemit & Hin).
    exists c. eexists. split; [reflexivity |].
    rewrite (filledCell_no_word _ _ _ _ _ _ _ Hemit) by reflexivity.
    repeat split. exact Hin.
  - exists SPACE. eexists. split; [reflexivity |]. repeat split.
Qed.

(** One turn when neither the replacement test nor the word guard fires and
    the previous text reaches the cell. *)
Lemma cell_reuse (rnd : tape) (previous : jsstring) (words : list jsstring)
    (letters : jsstring) (d : ImageData) (st : LoopState) :
  covers d -> width d * height d <= length previous ->
  i st < width d * height d ->
  (filledAt d (i st) = true -> quiet_cell rnd (Some previous) words letters st) ->
  exists c st', cell rnd (Some previous) words letters d st = Ok st'
    /\ chars st' = chars st ++ [c] /\ i st' = S (i st)
    /\ c = (if filledAt d (i st) then nth (i st) previous SPACE else SPACE).
Proof.
  intros Hcov Hlen Hi Hquiet. rewrite cell_sampleAt. unfold filledAt in *.
  destruct (sampleAt_covered d (i st) Hcov Hi) as [[[[r g] b] a] Hs].
  rewrite Hs in *. destruct (filled r g b a).
  - destruct (Hquiet eq_refl) as [Hkeep Hguard].
    assert (Hemit : emitChar rnd (Some previous) letters (i st) (draws st)
                    = ([nth (i st) previous SPACE],
                       snd (emitChar rnd (Some previous) letters (i st) (draws st)))).
    { revert Hkeep. unfold emitChar, bind.
      destruct (shouldReplaceExistingText rnd (Some previous) (draws st)) as [[|] n1];
        simpl; [discriminate |].
      intros _. rewrite (nth_error_nth' previous SPACE) by lia. reflexivity. }
    eexists. eexists. split; [reflexivity |].
    rewrite (filledCell_no_word _ _ _ _ _ _ _ Hemit) by exact Hguard.
    repeat split.
  - exists SPACE. eexists. split; [reflexivity |]. repeat split.
Qed.

(** A random source that never returns less than 0.1 makes every cell quiet,
    as long as there is previous text. *)
Lemma high_draws_quiet_any (rnd : tape) (previous : jsstring) (words : list jsstring)
    (letters : jsstring) (st : LoopState) :
  (forall k, (1 # 10 <= rnd k)%Q) -> previous <> [] ->
  quiet_cell rnd (Some previous) words letters st.
Proof.
  intros Hhigh Hne. split; [| apply wordGuard_high; exact Hhigh].
  rewrite shouldReplaceExistingText_present
    by (destruct previous; [congruence | reflexivity]).
  simpl. apply Qltb_false, Hhigh.
Qed.

Lemma Forall2_eq_map {A B} (f : A -> B) (xs : list A) (ys : list B) :
  Forall2 (fun x y => y = f x) xs ys -> ys = map f xs.
Proof. induction 1; simpl; congruence. Qed.

Lemma text_of_grid_length (cellOK : nat -> N -> Prop) (d : ImageData) (text : jsstring) :
  text_of_grid cellOK d text -> length text = height d * (width d + 1).
Proof.
  intros (rows & -> & Hrows).
  assert (Hgen : forall ys, Forall2 (fun y row => Forall2 cellOK
                                       (seq (y * width d) (width d)) row) ys rows ->
                 length (concat (map (fun row => row ++ [LF]) rows))
                 = length ys * (width d + 1)).
  { clear Hrows. intros ys Hall. induction Hall as [| y row ys rows Hrow _ IH].
    - reflexivity.
    - simpl. rewrite !length_app, IH. simpl.
      apply Forall2_length in Hrow. rewrite length_seq in Hrow. lia. }
  rewrite (Hgen _ Hrows), length_seq. reflexivity.
Qed.

Lemma stripLineBreaks_filter (s : jsstring) :
  stripLineBreaks s = filter (fun c => c <> CR /\ c <> LF) s.
Proof.
  assert (Hgen : forall n s, length s <= n ->
                 stripLineBreaks s = filter (fun c => c <> CR /\ c <> LF) s).
  { clear s. induction n as [| n IH]; intros [| c rest] Hn; simpl in Hn;
      try reflexivity; try lia.
    simpl. destruct (N.eqb_spec c CR) as [-> | Hcr].
    - rewrite filter_cons_False by (intros [Hc _]; congruence).
      destruct rest as [| e rest']; [reflexivity |].
      destruct (N.eqb_spec e LF) as [-> | Hlf].
      + rewrite filter_cons_False by (intros [_ Hc]; congruence).
        apply IH. simpl in Hn. lia.
      + apply IH. lia.
    - destruct (N.eqb_spec c LF) as [-> | Hlf].
      + rewrite filter_cons_False by (intros [_ Hc]; congruence).
        apply IH. lia.
      + rewrite filter_cons_True by (split; assumption).
        f_equal. apply IH. lia. }
  apply (Hgen (length s)). reflexivity.
Qed.

(** C5 as stated fails when words are configured: on the first frame of a
    row of two filled cells, with the palette [01], the word [HI] and draws
    of 0.01, the output is [HI] and a line break, and the code unit [H] in
    the first filled cell is not in the palette. *)
Lemma first_frame_word_overwrites :
  let d := mkImageData 2 1 (darkPixel ++ darkPixel) in
  in_unit low /\ covers d /\ filledAt d 0 = true
  /\ getTextContentWithImageAtSize low d None [js "HI"] (js "01")
     = Ok (js "HI" ++ [LF])
  /\ ~ In (nth 0 (js "HI" ++ [LF]) SPACE) (js "01").
Proof.
  cbv zeta. split; [| split; [| split; [| split]]].
  - intros k. split; [discriminate | reflexivity].
  - unfold covers. simpl. lia.
  - reflexivity.
  - vm_compute. reflexivity.
  - simpl. intros [Hc | [Hc | []]]; discriminate Hc.
Qed.

(** C5, amended. Let the draws lie in the unit interval, the palette be
    non-empty (as [render] checks) and the buffer hold every cell. With no
    previous text the replacement test succeeds at every cell without a draw,
    and the character emitted for a filled cell is a character of the palette.
    When no words are configured, the output therefore has, row by row, a
    palette character at every filled cell and a space at every other cell,
    and a line break after every row; configured words may overwrite cells.
    In particular, with palette [01], no words and a grid of 3 by 1 filled
    cells, the output is three characters out of [0] and [1] and a line break,
    four code units in all. *)
Theorem first_frame_from_palette (rnd : tape) (d : ImageData) (letters : jsstring) :
  in_unit rnd -> letters <> [] -> covers d ->
  (forall n, shouldReplaceExistingText rnd None n = (true, n))
  /\ (forall k n, exists c, emitChar rnd None letters k n = ([c], S n) /\ In c letters)
  /\ (exists text,
        getTextContentWithImageAtSize rnd d None [] letters = Ok text
        /\ text_of_grid (fun k c => if filledAt d k then In c letters else c = SPACE)
             d text)
  /\ (letters = js "01" -> width d = 3 -> height d = 1 ->
      (forall k, k < 3 -> filledAt d k = true) ->
      exists c0 c1 c2,
        getTextContentWithImageAtSize rnd d None [] letters = Ok [c0; c1; c2; LF]
        /\ In c0 (js "01") /\ In c1 (js "01") /\ In c2 (js "01")
        /\ length [c0; c1; c2; LF] = 4).
Proof.
  intros Hunit Hne Hcov.
  assert (Hrun : exists text,
             getTextContentWithImageAtSize rnd d None [] letters = Ok text
             /\ text_of_grid (fun k c => if filledAt d k then In c letters else c = SPACE)
                  d text).
  { apply compositor_grid. intros st _ Hi.
    apply cell_first_frame; try assumption. reflexivity. }
  split; [intros n; reflexivity |].
  split; [intros k n; apply emitChar_absent; auto |].
  split; [exact Hrun |].
  intros Hletters Hw Hh Hfilled.
  destruct Hrun as (text & Hrun & rows & -> & Hrows).
  rewrite Hw, Hh in Hrows. simpl in Hrows.
  apply Forall2_cons_inv_l in Hrows as (row & rest & Hrow & Hrest & ->).
  apply Forall2_nil_inv_l in Hrest as ->.
  apply Forall2_cons_inv_l in Hrow as (c0 & r0 & H0 & Hrow & ->).
  apply Forall2_cons_inv_l in Hrow as (c1 & r1 & H1 & Hrow & ->).
  apply Forall2_cons_inv_l in Hrow as (c2 & r2 & H2 & Hrow & ->).
  apply Forall2_nil_inv_l in Hrow as ->.
  rewrite Hfilled in H0, H1, H2 by lia. rewrite Hletters in H0, H1, H2.
  exists c0, c1, c2. split; [exact Hrun |]. repeat split; assumption.
Qed.

Lemma first_frame_from_palette_witness :
  exists c0 c1 c2,
    getTextContentWithImageAtSize half
      (mkImageData 3 1 (darkPixel ++ darkPixel ++ darkPixel)) None [] (js "01")
    = Ok [c0; c1; c2; LF]
    /\ In c0 (js "01") /\ In c1 (js "01") /\ In c2 (js "01").
Proof.
  destruct (first_frame_from_palette half
              (mkImageData 3 1 (darkPixel ++ darkPixel ++ darkPixel)) (js "01"))
    as (_ & _ & _ & Hexample).
  - intros k. split; [discriminate | reflexivity].
  - discriminate.
  - unfold covers. simpl. lia.
  - destruct Hexample as (c0 & c1 & c2 & Hrun & H0 & H1 & H2 & _);
      [reflexivity | reflexivity | reflexivity | |].
    + intros [| [| [| k]]] Hk; try reflexivity. lia.
    + exists c0, c1, c2. repeat split; assumption.
Defined.

(** C6. Let the buffer hold every cell, let the previous text, its line
    breaks removed, reach every cell, and let neither the replacement of a
    character nor the guard of the word injection fire at any filled cell of
    the run; this is so, in particular, when the random source never returns
    less than 0.1. Then the compositor returns the text that has, row by row,
    at every filled cell the code unit of the previous text at the absolute
    index of the cell, counted after the removal of the line breaks (every CR
    and LF code unit), and a space at every other cell; every row has as many
    code units as the grid is wide, followed by its line break. *)
Theorem reuse_reproduces_previous_frame (rnd : tape) (d : ImageData)
    (existingText : jsstring) (words : list jsstring) (letters : jsstring) :
  covers d ->
  width d * height d <= length (stripLineBreaks existingText) ->
  (forall st,
     reachable rnd (Some (stripLineBreaks existingText)) words letters d st ->
     i st < width d * height d -> filledAt d (i st) = true ->
     quiet_cell rnd (Some (stripLineBreaks existingText)) words letters st)
  \/ (forall k, (1 # 10 <= rnd k)%Q) ->
  getTextContentWithImageAtSize rnd d (Some existingText) words letters
  = Ok (reusedText d (stripLineBreaks existingText))
  /\ stripLineBreaks existingText
     = filter (fun c => c <> CR /\ c <> LF) existingText
  /\ text_of_grid
       (fun k c => c = if filledAt d k
                       then nth k (stripLineBreaks existingText) SPACE else SPACE)
       d (reusedText d (stripLineBreaks existingText))
  /\ length (reusedText d (stripLineBreaks existingText)) = height d * (width d + 1).
Proof.
  intros Hcov Hlen Hseam.
  assert (Hquiet : forall st,
             reachable rnd (Some (stripLineBreaks existingText)) words letters d st ->
             i st < width d * height d -> filledAt d (i st) = true ->
             quiet_cell rnd (Some (stripLineBreaks existingText)) words letters st).
  { destruct Hseam as [Hquiet | Hhigh]; [exact Hquiet |].
    intros st _ Hi _. apply high_draws_quiet_any; [exact Hhigh |].
    intros Hnil. rewrite Hnil in Hlen. simpl in Hlen. lia. }
  destruct (compositor_grid rnd (Some existingText) words letters d
              (fun k c => c = if filledAt d k
                              then nth k (stripLineBreaks existingText) SPACE
                              else SPACE))
    as (text & Hrun & Hgrid).
  { intros st Hreach Hi. simpl. apply cell_reuse; try assumption.
    apply Hquiet; assumption. }
  assert (Htext : text = reusedText d (stripLineBreaks existingText)).
  { destruct Hgrid as (rows & -> & Hrows). unfold reusedText.
    assert (Heq : Forall2 (fun y row =>
                             row = map (fun k => if filledAt d k
                                                 then nth k (stripLineBreaks existingText)
                                                        SPACE
                                                 else SPACE)
                                     (seq (y * width d) (width d)))
                    (seq 0 (height d)) rows).
    { eapply Forall2_impl; [exact Hrows |].
      intros y row Hrow. apply Forall2_eq_map in Hrow. exact Hrow. }
    apply Forall2_eq_map in Heq. rewrite Heq, map_map. reflexivity. }
  subst text. split; [exact Hrun |].
  split; [apply stripLineBreaks_filter |].
  split; [exact Hgrid |].
  exact (text_of_grid_length _ _ _ Hgrid).
Qed.

Lemma reuse_reproduces_previous_frame_witness :
  getTextContentWithImageAtSize half (mkImageData 2 2
      (darkPixel ++ lightPixel ++ darkPixel ++ darkPixel))
    (Some (js "ab" ++ [CR; LF] ++ js "cd" ++ [LF])) [js "X"] (js "01")
  = Ok (js "a " ++ [LF] ++ js "cd" ++ [LF]).
Proof.
  apply (proj1 (reuse_reproduces_previous_frame half
                  (mkImageData 2 2 (darkPixel ++ lightPixel ++ darkPixel ++ darkPixel))
                  (js "ab" ++ [CR; LF] ++ js "cd" ++ [LF]) [js "X"] (js "01")
                  ltac:(unfold covers; simpl; lia)
                  ltac:(simpl; lia)
                  ltac:(right; intros k; discriminate))).
Defined.

(** ** Frame compositor: word injection *)

Lemma appended_length (v : option N) : 1 <= length (appended v).
Proof. destruct v; simpl; lia. Qed.

Lemma emitChar_length (rnd : tape) (existingText : option jsstring)
    (letters : jsstring) (k n : nat) :
  1 <= length (fst (emitChar rnd existingText letters k n)).
Proof.
  unfold emitChar, bind.
  destruct (shouldReplaceExistingText rnd existingText n) as [[|] n1].
  - destruct (randomChoice rnd letters n1) as [c n2]. apply appended_length.
  - apply appended_length.
Qed.

Lemma at_index_In {T} (list : list T) (k : Z) (x : T) :
  at_index list k = Some x -> In x list.
Proof.
  unfold at_index. destruct (k <? 0)%Z; [discriminate |]. apply nth_error_In.
Qed.

(** Lines 342-345: the text is left alone, or its last [word.length] code
    units are replaced by a word that is not empty and not longer than
    [i + 1 - start]. *)
Lemma injectWord_spec (rnd : tape) (words : list jsstring) (k start : nat)
    (text : jsstring) (n : nat) :
  fst (injectWord rnd words k start text n) = text
  \/ exists word,
       In word words /\ word <> []
       /\ (Z.of_nat (length word) <= Z.of_nat k + 1 - Z.of_nat start)%Z
       /\ fst (injectWord rnd words k start text n)
          = firstn (length text - length word) text ++ word.
Proof.
  unfold injectWord, bind, randomChoice, Math_random, ret. simpl.
  destruct (at_index words _) as [word |] eqn:Hword; [| left; reflexivity].
  destruct word as [| c word]; [left; reflexivity |].
  cbn [truthy andb].
  destruct (Z.leb_spec (Z.of_nat (length (c :: word)))
              (Z.of_nat k + 1 - Z.of_nat start)) as [Hfit | Hshort];
    [| left; reflexivity].
  right. exists (c :: word).
  split; [exact (at_index_In _ _ _ Hword) |].
  split; [discriminate |]. split; [exact Hfit | reflexivity].
Qed.

Lemma filledCell_fields (rnd : tape) (existingText : option jsstring)
    (words : list jsstring) (letters : jsstring) (st : LoopState) :
  start_of_filled_in_sequence (filledCell rnd existingText words letters st)
  = Some (default (i st) (start_of_filled_in_sequence st))
  /\ i (filledCell rnd existingText words letters st) = S (i st).
Proof.
  unfold filledCell.
  destruct (emitChar _ _ _ _ _) as [c n1].
  destruct (wordGuard _ _ _ _) as [g n2].
  destruct (if g then _ else _) as [chars2 n3]. split; reflexivity.
Qed.

(** A filled cell leaves the emitted text alone or writes a fitting word over
    its end. *)
Lemma filledCell_chars (rnd : tape) (existingText : option jsstring)
    (words : list jsstring) (letters : jsstring) (st : LoopState) :
  let start := default (i st) (start_of_filled_in_sequence st) in
  let emitted := chars st ++ fst (emitChar rnd existingText letters (i st) (draws st)) in
  chars (filledCell rnd existingText words letters st) = emitted
  \/ exists word,
       In word words /\ word <> []
       /\ (Z.of_nat (length word) <= Z.of_nat (i st) + 1 - Z.of_nat start)%Z
       /\ chars (filledCell rnd existingText words letters st)
          = firstn (length emitted - length word) emitted ++ word.
Proof.
  cbv zeta. unfold filledCell.
  destruct (emitChar _ _ _ _ _) as [c n1]. cbn [fst].
  destruct (wordGuard _ _ _ _) as [[|] n2]; [| left; reflexivity].
  pose proof (injectWord_spec rnd words (i st)
                (default (i st) (start_of_filled_in_sequence st))
                (chars st ++ c) n2) as Hspec.
  destruct (injectWord _ _ _ _ _ _) as [chars2 n3]. exact Hspec.
Qed.

(** A filled cell in a row: the text of the rows before is kept, and the
    text of the row gets the emitted text, or a fitting word over its end. *)
Lemma filledCell_in_row (rnd : tape) (existingText : option jsstring)
    (words : list jsstring) (letters : jsstring) (st : LoopState)
    (base : nat) (pre row : jsstring) :
  chars st = pre ++ row ->
  base <= default (i st) (start_of_filled_in_sequence st) <= i st ->
  i st - base <= length row ->
  let start := default (i st) (start_of_filled_in_sequence st) in
  let c := fst (emitChar rnd existingText letters (i st) (draws st)) in
  let chars' := chars (filledCell rnd existingText words letters st) in
  chars' = pre ++ (row ++ c)
  \/ exists word,
       In word words /\ word <> []
       /\ length word <= i st + 1 - start
       /\ chars' = pre ++ (firstn (length (row ++ c) - length word) (row ++ c) ++ word)
       /\ length (firstn (length (row ++ c) - length word) (row ++ c) ++ word)
          = length (row ++ c).
Proof.
  intros Hchars Hstart Hrow. cbv zeta.
  pose proof (emitChar_length rnd existingText letters (i st) (draws st)) as Hc.
  destruct (filledCell_chars rnd existingText words letters st)
    as [Hsame | (word & Hin & Hne & Hfit & Hwritten)].
  - left. rewrite Hsame, Hchars, <- app_assoc. reflexivity.
  - right. exists word.
    assert (Hword : length word
                    <= length (row ++ fst (emitChar rnd existingText letters (i st)
                                             (draws st))))
      by (rewrite length_app; lia).
    split; [exact Hin |]. split; [exact Hne |]. split; [lia |]. split.
    + rewrite Hwritten, Hchars, <- !app_assoc.
      rewrite firstn_app, firstn_all2, <- app_assoc by (rewrite length_app; lia).
      do 2 f_equal. rewrite length_app. f_equal. lia.
    + rewrite length_app, length_firstn. lia.
Qed.

Lemma run_invariant_first (d : ImageData) : run_invariant d 0 [] (initialLoop 0).
Proof.
  split; [left; reflexivity |]. exists []. simpl.
  split; [reflexivity |]. split; [lia |]. split; [lia |].
  split; [lia |]. split; [intros k Hk; lia | left; reflexivity].
Qed.

Lemma run_invariant_next (d : ImageData) (base : nat) (pre : jsstring)
    (st : LoopState) :
  run_invariant d base pre st ->
  run_invariant d (i st) (chars (endOfRow st)) (endOfRow st).
Proof.
  intros _. split; [right; exists (chars st); reflexivity |].
  exists []. simpl. rewrite app_nil_r.
  split; [reflexivity |]. split; [lia |]. split; [lia |]. left. reflexivity.
Qed.

Lemma run_invariant_cell (rnd : tape) (existingText : option jsstring)
    (words : list jsstring) (letters : jsstring) (d : ImageData)
    (base : nat) (pre : jsstring) (st st' : LoopState) :
  run_invariant d base pre st ->
  cell rnd existingText words letters d st = Ok st' ->
  run_invariant d base pre st'.
Proof.
  intros (Hpre & row & Hchars & Hbase & Hlen & Hrun). rewrite cell_sampleAt.
  destruct (sampleAt d (i st)) as [[[[r g] b] a] |] eqn:Hs; [| discriminate].
  assert (Hhere : filledAt d (i st) = filled r g b a)
    by (unfold filledAt; rewrite Hs; reflexivity).
  destruct (filled r g b a); intros [= <-]; (split; [exact Hpre |]).
  - destruct (filledCell_fields rnd existingText words letters st) as [Hstart Hi].
    assert (Hin : base <= default (i st) (start_of_filled_in_sequence st) <= i st).
    { destruct (start_of_filled_in_sequence st) as [s |]; simpl; [| lia].
      destruct Hrun as (Hs1 & _). lia. }
    pose proof (emitChar_length rnd existingText letters (i st) (draws st)) as Hc.
    assert (Hstart' :
      match start_of_filled_in_sequence
              (filledCell rnd existingText words letters st) with
      | Some s =>
          base <= s <= i (filledCell rnd existingText words letters st)
          /\ (forall k, s <= k < i (filledCell rnd existingText words letters st) ->
                filledAt d k = true)
          /\ (s = base \/ filledAt d (s - 1) = false)
      | None => i (filledCell rnd existingText words letters st) = base
                \/ filledAt d (i (filledCell rnd existingText words letters st) - 1)
                   = false
      end).
    { rewrite Hstart, Hi.
      destruct (start_of_filled_in_sequence st) as [s |]; simpl.
      - destruct Hrun as (Hs1 & Hs2 & Hs3). split; [lia |]. split; [| exact Hs3].
        intros k Hk. destruct (decide (k = i st)) as [-> | Hne];
          [exact Hhere | apply Hs2; lia].
      - split; [lia |]. split; [| exact Hrun].
        intros k Hk. replace k with (i st) by lia. exact Hhere. }
    destruct (filledCell_in_row rnd existingText words letters st base pre row
                Hchars Hin Hlen)
      as [Hsame | (word & _ & _ & _ & Hwritten & Hkeep)].
    + eexists. split; [exact Hsame |]. rewrite Hi.
      split; [lia |]. split; [rewrite length_app; lia |].
      rewrite <- Hi. exact Hstart'.
    + eexists. split; [exact Hwritten |]. rewrite Hi.
      split; [lia |]. split; [rewrite Hkeep, length_app; lia |].
      rewrite <- Hi. exact Hstart'.
  - exists (row ++ [SPACE]). simpl.
    split; [rewrite Hchars, <- app_assoc; reflexivity |].
    split; [lia |]. split; [rewrite length_app; simpl; lia |].
    right. rewrite Nat.sub_0_r. exact Hhere.
Qed.

Lemma in_row_invariant (rnd : tape) (existingText : option jsstring)
    (words : list jsstring) (letters : jsstring) (d : ImageData)
    (base : nat) (pre : jsstring) (st : LoopState) :
  in_row rnd existingText words letters d base pre st -> run_invariant d base pre st.
Proof.
  induction 1 as [| base pre st st' _ IH Hcell | base pre st _ IH _].
  - apply run_invariant_first.
  - exact (run_invariant_cell _ _ _ _ _ _ _ _ _ IH Hcell).
  - exact (run_invariant_next _ _ _ _ IH).
Qed.

Lemma forX_in_row (rnd : tape) (existingText : option jsstring)
    (words : list jsstring) (letters : jsstring) (d : ImageData)
    (base : nat) (pre : jsstring) (n : nat) (st st' : LoopState) :
  in_row rnd existingText words letters d base pre st ->
  forX rnd existingText words letters d n st = Ok st' ->
  in_row rnd existingText words letters d base pre st' /\ i st' = i st + n.
Proof.
  revert st. induction n as [| n IH]; intros st Hin; simpl.
  - intros [= <-]. split; [exact Hin | lia].
  - destruct (cell rnd existingText words letters d st) as [st1 | e] eqn:Hcell;
      [| discriminate].
    intros Hrun.
    destruct (IH st1 (row_cell _ _ _ _ _ _ _ _ _ Hin Hcell) Hrun) as [Hin' Hi'].
    split; [exact Hin' |].
    assert (Hi1 : i st1 = S (i st)).
    { revert Hcell. rewrite cell_sampleAt.
      destruct (sampleAt d (i st)) as [[[[r g] b] a] |]; [| discriminate].
      destruct (filled r g b a); intros [= <-];
        [apply filledCell_fields | reflexivity]. }
    lia.
Qed.

(** Every state that a run of the compositor passes through between two
    turns is a state of [in_row], at the start of a row after every row, and
    so is the one it ends in. *)
Lemma forY_in_row (rnd : tape) (existingText : option jsstring)
    (words : list jsstring) (letters : jsstring) (d : ImageData)
    (m : nat) (base : nat) (pre : jsstring) (st st' : LoopState) :
  in_row rnd existingText words letters d base pre st -> i st = base ->
  forY rnd existingText words letters d m st = Ok st' ->
  exists base' pre',
    in_row rnd existingText words letters d base' pre' st' /\ i st' = base'.
Proof.
  revert base pre st. induction m as [| m IH]; intros base pre st Hin Hi; simpl.
  - intros [= <-]. eauto.
  - destruct (forX rnd existingText words letters d (width d) st) as [st1 | e] eqn:Hrow;
      [| discriminate].
    destruct (forX_in_row _ _ _ _ _ _ _ _ _ _ Hin Hrow) as [Hin1 Hi1].
    apply (IH (i st1) (chars (endOfRow st1)) (endOfRow st1)); [| reflexivity].
    eapply row_next; [exact Hin1 | lia].
Qed.

(** C7. At every filled cell of every run (a state the loops reach in a row
    that starts at the cell [base] after the text [pre] of the earlier rows;
    [start] is the recorded start of the run, or the cell itself when none
    is recorded): the earlier rows end in their line break; [start] lies in
    the current row, the cells from [start] to the current one are filled and
    the cell before [start], if the row has one, is not, so that [start] to
    the current cell is the run of filled cells of this row that the cell
    ends; and the cell either adds its character to the text of the row, or
    writes a configured, non-empty word of at most [i + 1 - start] code units
    over exactly the last [word.length] code units of the text of the row
    with its character. In both cases the text of the earlier rows, line
    breaks included, is as it was, and the word leaves the length of the row
    unchanged. *)
Theorem word_fits_current_run (rnd : tape) (existingText : option jsstring)
    (words : list jsstring) (letters : jsstring) (d : ImageData)
    (base : nat) (pre : jsstring) (st : LoopState) :
  in_row rnd existingText words letters d base pre st ->
  filledAt d (i st) = true ->
  let start := default (i st) (start_of_filled_in_sequence st) in
  let c := fst (emitChar rnd existingText letters (i st) (draws st)) in
  let chars' := chars (filledCell rnd existingText words letters st) in
  cell rnd existingText words letters d st
  = Ok (filledCell rnd existingText words letters st)
  /\ (pre = [] \/ exists before, pre = before ++ [LF])
  /\ base <= start <= i st
  /\ (forall k, start <= k <= i st -> filledAt d k = true)
  /\ (start = base \/ filledAt d (start - 1) = false)
  /\ exists row,
       chars st = pre ++ row
       /\ (chars' = pre ++ (row ++ c)
           \/ exists word,
                In word words /\ word <> []
                /\ length word <= i st + 1 - start
                /\ chars'
                   = pre ++ (firstn (length (row ++ c) - length word) (row ++ c)
                             ++ word)
                /\ length (firstn (length (row ++ c) - length word) (row ++ c)
                           ++ word)
                   = length (row ++ c)).
Proof.
  intros Hin Hfilled. cbv zeta.
  destruct (in_row_invariant _ _ _ _ _ _ _ _ Hin)
    as (Hpre & row & Hchars & Hbase & Hlen & Hrun).
  assert (Hstart :
    base <= default (i st) (start_of_filled_in_sequence st) <= i st
    /\ (forall k, default (i st) (start_of_filled_in_sequence st) <= k <= i st ->
          filledAt d k = true)
    /\ (default (i st) (start_of_filled_in_sequence st) = base
        \/ filledAt d (default (i st) (start_of_filled_in_sequence st) - 1) = false)).
  { destruct (start_of_filled_in_sequence st) as [s |]; simpl.
    - destruct Hrun as (Hs1 & Hs2 & Hs3). split; [lia |]. split; [| exact Hs3].
      intros k Hk. destruct (decide (k = i st)) as [-> | Hne];
        [exact Hfilled | apply Hs2; lia].
    - split; [lia |]. split; [| exact Hrun].
      intros k Hk. replace k with (i st) by lia. exact Hfilled. }
  destruct Hstart as (Hs1 & Hs2 & Hs3).
  split.
  { rewrite cell_sampleAt. unfold filledAt in Hfilled.
    destruct (sampleAt d (i st)) as [[[[r g] b] a] |]; [| discriminate].
    rewrite Hfilled. reflexivity. }
  split; [exact Hpre |]. split; [exact Hs1 |]. split; [exact Hs2 |].
  split; [exact Hs3 |].
  exists row. split; [exact Hchars |].
  exact (filledCell_in_row rnd existingText words letters st base pre row
           Hchars Hs1 Hlen).
Qed.

Lemma word_fits_current_run_witness :
  cell low None [js "X"] (js "01") (mkImageData 1 1 darkPixel) (initialLoop 0)
  = Ok (filledCell low None [js "X"] (js "01") (initialLoop 0))
  /\ exists row,
       [] = [] ++ row
       /\ (chars (filledCell low None [js "X"] (js "01") (initialLoop 0))
           = [] ++ (row ++ js "0")
           \/ exists word,
                In word [js "X"] /\ word <> [] /\ length word <= 1
                /\ chars (filledCell low None [js "X"] (js "01") (initialLoop 0))
                   = [] ++ (firstn (length (row ++ js "0") - length word)
                              (row ++ js "0") ++ word)
                /\ length (firstn (length (row ++ js "0") - length word)
                             (row ++ js "0") ++ word)
                   = length (row ++ js "0")).
Proof.
  destruct (word_fits_current_run low None [js "X"] (js "01")
              (mkImageData 1 1 darkPixel) 0 [] (initialLoop 0)
              (row_first _ _ _ _ _) eq_refl)
    as (Hcell & _ & _ & _ & _ & Hrow).
  split; [exact Hcell | exact Hrow].
Defined.

(** The check of the specification for the rule above: a word of five code
    units on a row of three filled cells. Whatever the draws, the first frame
    is three characters of the palette and a line break, so the word is not
    in it. *)
Lemma long_word_never_written (rnd : tape) (d : ImageData) (word letters : jsstring) :
  in_unit rnd -> letters <> [] -> covers d ->
  width d = 3 -> height d = 1 -> length word = 5 ->
  exists text,
    getTextContentWithImageAtSize rnd d None [word] letters = Ok text
    /\ text_of_grid (fun k c => if filledAt d k then In c letters else c = SPACE) d text
    /\ length text = 4.
Proof.
  intros Hunit Hne Hcov Hw Hh Hword.
  destruct (compositor_grid rnd None [word] letters d
              (fun k c => if filledAt d k then In c letters else c = SPACE))
    as (text & Hrun & Hgrid).
  { intros st _ Hi. simpl. rewrite cell_sampleAt. unfold filledAt.
    destruct (sampleAt_covered d (i st) Hcov Hi) as [[[[r g] b] a] Hs].
    rewrite Hs. destruct (filled r g b a).
    - destruct (emitChar_absent rnd None letters (i st) (draws st) Hunit Hne eq_refl)
        as (c & Hemit & Hin).
      destruct (filledCell_fields rnd None [word] letters st) as [_ Hnext].
      exists c. eexists. split; [reflexivity |].
      split; [| split; [exact Hnext | exact Hin]].
      destruct (filledCell_chars rnd None [word] letters st)
        as [Hsame | (w' & [<- | []] & _ & Hfit & _)].
      + rewrite Hsame, Hemit. reflexivity.
      + rewrite Hw, Hh in Hi. lia.
    - exists SPACE. eexists. split; [reflexivity |]. repeat split. }
  exists text. split; [exact Hrun |]. split; [exact Hgrid |].
  rewrite (text_of_grid_length _ _ _ Hgrid), Hw, Hh. reflexivity.
Qed.

(** * Further properties *)

(** ** Validators and settings *)

Lemma blank_not_exists (s : jsstring) :
  ~ blank s <-> exists c, In c s /\ isWhiteSpace c = false.
Proof.
  unfold blank. induction s as [| c rest IH].
  - split; [intros Hn; exfalso; apply Hn; constructor | intros (c & [] & _)].
  - destruct (isWhiteSpace c) eqn:Hc.
    + split.
      * intros Hn. destruct (proj1 IH) as (x & Hin & Hx).
        { intros Hrest. apply Hn. constructor; assumption. }
        exists x. split; [right; exact Hin | exact Hx].
      * intros (x & [<- | Hin] & Hx) Hall; [congruence |].
        inversion Hall; subst. apply (proj2 IH); [eauto | assumption].
    + split.
      * intros _. exists c. split; [left; reflexivity | exact Hc].
      * intros _ Hall. inversion Hall; congruence.
Qed.

(** X1. [isStringNonBlank] holds exactly of the strings with a code unit that
    is not white space (the white space of [trim]: tab to carriage return,
    space, no-break space, the Unicode spaces, the line and paragraph
    separators and the byte order mark). [isArrayStringNonBlank] holds exactly
    when every string of the array has such a code unit; the empty array
    passes, and an array with an empty string does not. *)
Theorem validators_characterised :
  (forall str, isStringNonBlank str = true
               <-> exists c, In c str /\ isWhiteSpace c = false)
  /\ (forall arr, isArrayStringNonBlank arr = true
                  <-> forall word, In word arr ->
                        exists c, In c word /\ isWhiteSpace c = false)
  /\ isArrayStringNonBlank [] = true
  /\ (forall arr, In [] arr -> isArrayStringNonBlank arr = false).
Proof.
  assert (Hstr : forall str, isStringNonBlank str = true
                             <-> exists c, In c str /\ isWhiteSpace c = false).
  { intros str. rewrite <- blank_not_exists, <- isStringNonBlank_false.
    destruct (isStringNonBlank str); split; congruence. }
  split; [exact Hstr |]. split; [| split; [reflexivity |]].
  - intros arr. unfold isArrayStringNonBlank. rewrite forallb_forall.
    split; intros Hall word Hin; apply Hstr, Hall, Hin.
  - intros arr Hin. apply isArrayStringNonBlank_false.
    apply Exists_exists. exists []. split; [apply list_elem_of_In, Hin | constructor].
Qed.

Lemma spread_twice (config : Config) (userConfig : PartialConfig) :
  spread (spread config userConfig) userConfig = spread config userConfig.
Proof. destruct config, userConfig as [[?|] [?|] [?|] [?|] [?|] [?|]]; reflexivity. Qed.

(** X3. Calling [configure] a second time with the same update changes
    nothing: the second call ends as the first did (both return or both throw
    'Invalid settings') and leaves the store that the first call left. *)
Theorem configure_twice (userConfig : PartialConfig) (config : Config) :
  configure userConfig (snd (configure userConfig config))
  = configure userConfig config.
Proof.
  destruct (isConfigValid (spread config userConfig)) eqn:Hm.
  - rewrite (configure_valid config) by exact Hm. simpl.
    rewrite configure_valid by (rewrite spread_twice; exact Hm).
    rewrite spread_twice. reflexivity.
  - rewrite (configure_invalid config) by exact Hm. simpl.
    apply configure_invalid. exact Hm.
Qed.

(** ** Frame compositor: bounds *)

Lemma sampleAt_is_Some (d : ImageData) (k : nat) :
  is_Some (sampleAt d k) <-> 4 * k + 4 <= length (data d).
Proof.
  unfold sampleAt.
  assert (Hlen : length (firstn 4 (skipn (k * 4) (data d)))
                 = Nat.min 4 (length (data d) - k * 4))
    by (rewrite length_firstn, length_skipn; reflexivity).
  destruct (firstn 4 (skipn (k * 4) (data d))) as [| r [| g [| b [| a rest]]]];
    cbn [length] in Hlen; split; intros H;
    try (destruct H as [? [=]]); try lia; eauto.
Qed.

Lemma cell_ok (rnd : tape) (existingText : option jsstring) (words : list jsstring)
    (letters : jsstring) (d : ImageData) (st : LoopState) :
  4 * i st + 4 <= length (data d) ->
  exists st', cell rnd existingText words letters d st = Ok st' /\ i st' = S (i st).
Proof.
  intros Hlen. rewrite cell_sampleAt.
  destruct (proj2 (sampleAt_is_Some d (i st)) Hlen) as [[[[r g] b] a] ->].
  destruct (filled r g b a); eexists; (split; [reflexivity |]).
  - apply filledCell_fields.
  - reflexivity.
Qed.

Lemma cell_throws (rnd : tape) (existingText : option jsstring) (words : list jsstring)
    (letters : jsstring) (d : ImageData) (st : LoopState) :
  length (data d) < 4 * i st + 4 ->
  cell rnd existingText words letters d st = Throw "Array index out of bound".
Proof.
  intros Hlen. rewrite cell_sampleAt.
  destruct (sampleAt d (i st)) as [p |] eqn:Hs; [| reflexivity].
  assert (Hsome : is_Some (sampleAt d (i st))) by (rewrite Hs; eauto).
  apply sampleAt_is_Some in Hsome. lia.
Qed.

Lemma forX_ok (rnd : tape) (existingText : option jsstring) (words : list jsstring)
    (letters : jsstring) (d : ImageData) (n : nat) (st : LoopState) :
  4 * (i st + n) <= length (data d) ->
  exists st', forX rnd existingText words letters d n st = Ok st' /\ i st' = i st + n.
Proof.
  revert st. induction n as [| n IH]; intros st Hlen.
  - exists st. split; [reflexivity | lia].
  - destruct (cell_ok rnd existingText words letters d st) as (st1 & Hcell & Hi); [lia |].
    destruct (IH st1) as (st' & Hrun & Hi'); [lia |].
    exists st'. simpl. rewrite Hcell. split; [exact Hrun | lia].
Qed.

Lemma forX_throws (rnd : tape) (existingText : option jsstring) (words : list jsstring)
    (letters : jsstring) (d : ImageData) (n : nat) (st : LoopState) :
  4 * i st <= length (data d) -> length (data d) < 4 * (i st + n) ->
  forX rnd existingText words letters d n st = Throw "Array index out of bound".
Proof.
  revert st. induction n as [| n IH]; intros st Hlo Hhi; [lia |].
  simpl. destruct (le_lt_dec (4 * i st + 4) (length (data d))) as [Hin | Hout].
  - destruct (cell_ok rnd existingText words letters d st Hin) as (st1 & -> & Hi).
    apply IH; lia.
  - rewrite cell_throws by exact Hout. reflexivity.
Qed.

Lemma forY_ok (rnd : tape) (existingText : option jsstring) (words : list jsstring)
    (letters : jsstring) (d : ImageData) (m : nat) (st : LoopState) :
  4 * (i st + m * width d) <= length (data d) ->
  exists st', forY rnd existingText words letters d m st = Ok st'.
Proof.
  revert st. induction m as [| m IH]; intros st Hlen.
  - exists st. reflexivity.
  - destruct (forX_ok rnd existingText words letters d (width d) st)
      as (st1 & Hrow & Hi); [simpl in Hlen; lia |].
    simpl. rewrite Hrow. apply IH. simpl in *. lia.
Qed.

Lemma forY_throws (rnd : tape) (existingText : option jsstring) (words : list jsstring)
    (letters : jsstring) (d : ImageData) (m : nat) (st : LoopState) :
  4 * i st <= length (data d) -> length (data d) < 4 * (i st + m * width d) ->
  forY rnd existingText words letters d m st = Throw "Array index out of bound".
Proof.
  revert st. induction m as [| m IH]; intros st Hlo Hhi; [simpl in Hhi; lia |].
  simpl. destruct (le_lt_dec (4 * (i st + width d)) (length (data d))) as [Hin | Hout].
  - destruct (forX_ok rnd existingText words letters d (width d) st Hin)
      as (st1 & -> & Hi).
    apply IH; simpl in *; lia.
  - rewrite forX_throws by assumption. reflexivity.
Qed.

(** X4. The compositor returns a text exactly when the buffer holds four
    samples for every cell of the grid; when the buffer is shorter, it throws
    'Array index out of bound', whatever the draws, the previous text, the
    words and the palette. A grid without rows gives the empty text. *)
Theorem compositor_returns_iff_covers (rnd : tape) (d : ImageData)
    (existingText : option jsstring) (words : list jsstring) (letters : jsstring) :
  (covers d ->
   exists text, getTextContentWithImageAtSize rnd d existingText words letters = Ok text)
  /\ (~ covers d ->
      getTextContentWithImageAtSize rnd d existingText words letters
      = Throw "Array index out of bound")
  /\ (height d = 0 ->
      getTextContentWithImageAtSize rnd d existingText words letters = Ok []).
Proof.
  unfold getTextContentWithImageAtSize, covers. cbv zeta. split; [| split].
  - intros Hcov.
    destruct (forY_ok rnd (option_map stripLineBreaks existingText) words letters d
                (height d) (initialLoop 0)) as (st' & ->); [simpl; lia |].
    eauto.
  - intros Hshort. rewrite forY_throws; [reflexivity | simpl; lia | simpl; lia].
  - intros ->. reflexivity.
Qed.

Lemma compositor_returns_iff_covers_witness :
  (exists text,
     getTextContentWithImageAtSize half (mkImageData 1 1 darkPixel) None [] (js "01")
     = Ok text)
  /\ getTextContentWithImageAtSize half (mkImageData 2 1 darkPixel) None [] (js "01")
     = Throw "Array index out of bound".
Proof.
  split.
  - apply (proj1 (compositor_returns_iff_covers half (mkImageData 1 1 darkPixel)
                    None [] (js "01"))).
    unfold covers. simpl. lia.
  - apply (proj1 (proj2 (compositor_returns_iff_covers half (mkImageData 2 1 darkPixel)
                           None [] (js "01")))).
    unfold covers. simpl. lia.
Defined.

(** ** Frame compositor: the shape and the content of a frame *)

Lemma Forall2_seq_lookup {A} (R : nat -> A -> Prop) (base n : nat) (l : list A) :
  Forall2 R (seq base n) l
  <-> length l = n /\ forall j c, nth_error l j = Some c -> R (base + j) c.
Proof.
  revert base n. induction l as [| x l IH]; intros base n.
  - split.
    + intros Hall. apply Forall2_length in Hall. rewrite length_seq in Hall.
      simpl in Hall. split; [simpl; lia |]. intros [| j] c; discriminate.
    + intros [Hlen _]. simpl in Hlen. subst n. constructor.
  - split.
    + intros Hall. destruct n as [| n]; [inversion Hall |].
      simpl in Hall. apply Forall2_cons_1 in Hall as [Hx Hall].
      apply IH in Hall as [Hlen Hrest]. split; [simpl; lia |].
      intros [| j] c Hc; simpl in Hc.
      * injection Hc as <-. rewrite Nat.add_0_r. exact Hx.
      * replace (base + S j) with (S base + j) by lia. apply Hrest, Hc.
    + intros [Hlen Hrest]. destruct n as [| n]; [discriminate |]. simpl.
      constructor.
      * rewrite <- (Nat.add_0_r base). apply Hrest. reflexivity.
      * apply IH. split; [simpl in Hlen; lia |].
        intros j c Hc. replace (S base + j) with (base + S j) by lia.
        apply Hrest. exact Hc.
Qed.

(** On tame inputs a filled cell emits one code unit, from the palette or
    from the previous text at the index of the cell. *)
Lemma emitChar_single (rnd : tape) (previous : option jsstring) (letters : jsstring)
    (k n : nat) :
  in_unit rnd -> letters <> [] ->
  (truthy previous = true -> k < length (default [] previous)) ->
  exists c, fst (emitChar rnd previous letters k n) = [c]
            /\ (In c letters \/ nth_error (default [] previous) k = Some c).
Proof.
  intros Hunit Hne Hlen. destruct (truthy previous) eqn:Ht.
  - unfold emitChar, bind. rewrite shouldReplaceExistingText_present by exact Ht.
    destruct (Qltb (rnd n) (1 # 10)).
    + destruct (randomChoice_in rnd letters (S n) Hunit Hne) as (c & Hc & Hin).
      rewrite Hc. exists c. split; [reflexivity | left; exact Hin].
    + unfold ret. simpl.
      destruct (nth_error (default [] previous) k) as [c |] eqn:Hk.
      * exists c. split; [reflexivity | right; reflexivity].
      * apply nth_error_None in Hk. specialize (Hlen eq_refl). lia.
  - destruct (emitChar_absent rnd previous letters k n Hunit Hne Ht) as (c & Hc & Hin).
    rewrite Hc. exists c. split; [reflexivity | left; exact Hin].
Qed.

(** One turn of the inner loop keeps the invariant of the row. *)
Lemma cell_row_invariant (rnd : tape) (previous : option jsstring)
    (words : list jsstring) (letters : jsstring) (d : ImageData)
    (base : nat) (pre row : jsstring) (st : LoopState) :
  tame rnd previous letters d ->
  row_invariant (cell_content letters previous words d) d base pre row st ->
  i st < width d * height d ->
  exists st' row',
    cell rnd previous words letters d st = Ok st'
    /\ row_invariant (cell_content letters previous words d) d base pre row' st'
    /\ i st' = S (i st).
Proof.
  intros (Hunit & Hne & Hcov & Hprev) (Hchars & Hbase & Hrow & Hstart) Hi.
  rewrite cell_sampleAt.
  destruct (sampleAt_covered d (i st) Hcov Hi) as [[[[r g] b] a] Hs]. rewrite Hs.
  assert (Hfilled : filledAt d (i st) = filled r g b a)
    by (unfold filledAt; rewrite Hs; reflexivity).
  apply Forall2_seq_lookup in Hrow as [Hlen Hrow].
  destruct (filled r g b a).
  - (* a filled cell *)
    destruct (emitChar_single rnd previous letters (i st) (draws st) Hunit Hne)
      as (c & Hemit & Hsource); [intros Ht; specialize (Hprev Ht); lia |].
    destruct (filledCell_fields rnd previous words letters st) as [Hstart' Hi'].
    set (start := default (i st) (start_of_filled_in_sequence st)) in *.
    assert (Hrun : base <= start <= i st
                   /\ forall k, start <= k < S (i st) -> filledAt d k = true).
    { unfold start. destruct (start_of_filled_in_sequence st) as [s |]; simpl.
      - destruct (Hstart s eq_refl) as [Hs1 Hs2]. split; [lia |].
        intros k Hk. destruct (decide (k = i st)) as [-> | Hne'];
          [exact Hfilled | apply Hs2; lia].
      - split; [lia |]. intros k Hk. replace k with (i st) by lia. exact Hfilled. }
    assert (Hrow1 : forall j x, nth_error (row ++ [c]) j = Some x ->
                      cell_content letters previous words d (base + j) x).
    { intros j x Hx. destruct (lt_dec j (length row)) as [Hj | Hj].
      - rewrite nth_error_app1 in Hx by exact Hj. apply Hrow, Hx.
      - rewrite nth_error_app2 in Hx by lia.
        destruct (j - length row) as [| j'] eqn:Hjj; simpl in Hx;
          [| destruct j'; discriminate].
        injection Hx as <-. replace (base + j) with (i st) by lia.
        unfold cell_content. rewrite Hfilled.
        destruct Hsource as [Hin | Hnth]; [left; exact Hin | right; left; exact Hnth]. }
    destruct (filledCell_chars rnd previous words letters st)
      as [Hsame | (word & Hin & Hnonempty & Hfit & Hwritten)].
    + exists (filledCell rnd previous words letters st), (row ++ [c]).
      split; [reflexivity |]. split; [| exact Hi'].
      split; [rewrite Hsame, Hemit, Hchars, <- app_assoc; reflexivity |].
      split; [lia |]. split.
      * apply Forall2_seq_lookup. split; [rewrite length_app; simpl; lia | exact Hrow1].
      * rewrite Hstart', Hi'. intros s [= <-]. split; [lia | apply Hrun].
    + fold start in Hfit.
      set (keep := length (row ++ [c]) - length word).
      assert (Hlen1 : length (row ++ [c]) = S (i st) - base)
        by (rewrite length_app; simpl; lia).
      assert (Hword : length word <= length (row ++ [c])) by lia.
      exists (filledCell rnd previous words letters st),
             (firstn keep (row ++ [c]) ++ word).
      split; [reflexivity |]. split; [| exact Hi'].
      split.
      { rewrite Hwritten, Hemit, Hchars, <- !app_assoc.
        rewrite firstn_app, firstn_all2 by (rewrite length_app; lia).
        rewrite <- app_assoc. do 2 f_equal.
        rewrite !length_app. unfold keep. rewrite length_app. f_equal. simpl. lia. }
      split; [lia |]. split.
      * apply Forall2_seq_lookup. split.
        { rewrite length_app, length_firstn. unfold keep. lia. }
        intros j x Hx.
        assert (Hkeep : length (firstn keep (row ++ [c])) = keep)
          by (rewrite length_firstn; unfold keep; lia).
        destruct (lt_dec j keep) as [Hj | Hj].
        -- rewrite nth_error_app1 in Hx by lia.
           rewrite nth_error_firstn in Hx.
           destruct (j <? keep) eqn:Hjk; [| apply Nat.ltb_ge in Hjk; lia].
           apply Hrow1, Hx.
        -- rewrite nth_error_app2, Hkeep in Hx by lia.
           assert (Hjw : j - keep < length word)
             by (apply nth_error_Some; congruence).
           apply nth_error_In in Hx. unfold cell_content.
           rewrite (proj2 Hrun) by (unfold keep in *; lia).
           right; right. exists word. split; assumption.
      * rewrite Hstart', Hi'. intros s [= <-]. split; [lia | apply Hrun].
  - (* an empty cell *)
    exists (emptyCell st), (row ++ [SPACE]).
    split; [reflexivity |]. split; [| reflexivity].
    split; [simpl; rewrite Hchars, <- app_assoc; reflexivity |].
    split; [simpl; lia |]. split; [| simpl; discriminate].
    apply Forall2_seq_lookup. simpl. split; [rewrite length_app; simpl; lia |].
    intros j x Hx. destruct (lt_dec j (length row)) as [Hj | Hj].
    + rewrite nth_error_app1 in Hx by exact Hj. apply Hrow, Hx.
    + rewrite nth_error_app2 in Hx by lia.
      destruct (j - length row) as [| j'] eqn:Hjj; simpl in Hx;
        [| destruct j'; discriminate].
      injection Hx as <-. replace (base + j) with (i st) by lia.
      unfold cell_content. rewrite Hfilled. reflexivity.
Qed.

Lemma forX_row_invariant (rnd : tape) (previous : option jsstring)
    (words : list jsstring) (letters : jsstring) (d : ImageData)
    (base : nat) (pre : jsstring) :
  tame rnd previous letters d ->
  forall n row st,
    row_invariant (cell_content letters previous words d) d base pre row st ->
    i st + n <= width d * height d ->
    exists st' row',
      forX rnd previous words letters d n st = Ok st'
      /\ row_invariant (cell_content letters previous words d) d base pre row' st'
      /\ i st' = i st + n.
Proof.
  intros Htame. induction n as [| n IH]; intros row st Hinv Hn.
  - exists st, row. split; [reflexivity |]. split; [exact Hinv | lia].
  - destruct (cell_row_invariant _ _ _ _ _ _ _ _ _ Htame Hinv)
      as (st1 & row1 & Hcell & Hinv1 & Hi1); [lia |].
    destruct (IH row1 st1 Hinv1) as (st' & row' & Hrun & Hinv' & Hi'); [lia |].
    exists st', row'. simpl. rewrite Hcell.
    split; [exact Hrun |]. split; [exact Hinv' | lia].
Qed.

Lemma forY_grid (rnd : tape) (previous : option jsstring)
    (words : list jsstring) (letters : jsstring) (d : ImageData) :
  tame rnd previous letters d ->
  forall m st rows,
    chars st = concat (map (fun row => row ++ [LF]) rows) ->
    i st = length rows * width d ->
    (forall s, start_of_filled_in_sequence st = Some s -> s = i st) ->
    Forall2 (fun y row => Forall2 (cell_content letters previous words d)
                            (seq (y * width d) (width d)) row)
      (seq 0 (length rows)) rows ->
    (length rows + m) * width d <= width d * height d ->
    exists st' rows',
      forY rnd previous words letters d m st = Ok st'
      /\ chars st' = concat (map (fun row => row ++ [LF]) rows')
      /\ length rows' = length rows + m
      /\ Forall2 (fun y row => Forall2 (cell_content letters previous words d)
                                 (seq (y * width d) (width d)) row)
           (seq 0 (length rows')) rows'.
Proof.
  intros Htame. induction m as [| m IH]; intros st rows Hchars Hi Hstart Hrows Hm.
  - exists st, rows. split; [reflexivity |]. split; [exact Hchars |].
    split; [lia | exact Hrows].
  - destruct (forX_row_invariant rnd previous words letters d (i st) (chars st) Htame
                (width d) [] st)
      as (st1 & row & Hrun & (Hchars1 & _ & Hrow & _) & Hi1); [| lia |].
    { split; [rewrite app_nil_r; reflexivity |]. split; [lia |].
      split; [rewrite Nat.sub_diag; constructor |].
      intros s Hs. rewrite (Hstart s Hs). split; [lia | intros k Hk; lia]. }
    replace (i st1 - i st) with (width d) in Hrow by lia.
    destruct (IH (endOfRow st1) (rows ++ [row]))
      as (st' & rows' & Hrun' & Hchars' & Hlen' & Hrows').
    + simpl. rewrite Hchars1, Hchars, map_app, concat_app. simpl.
      rewrite app_nil_r, <- app_assoc. reflexivity.
    + simpl. rewrite length_app. simpl. lia.
    + simpl. discriminate.
    + rewrite length_app. simpl. rewrite Nat.add_1_r, seq_S.
      apply Forall2_app; [exact Hrows |].
      constructor; [| constructor]. simpl. rewrite <- Hi. exact Hrow.
    + rewrite length_app. simpl. lia.
    + exists st', rows'. simpl. rewrite Hrun.
      split; [exact Hrun' |]. split; [exact Hchars' |].
      split; [rewrite Hlen', length_app; simpl; lia | exact Hrows'].
Qed.

(** On tame inputs the compositor returns a text of the shape of the grid
    whose cells hold what [cell_content] allows. *)
Lemma compositor_cells (rnd : tape) (d : ImageData) (existingText : option jsstring)
    (words : list jsstring) (letters : jsstring) :
  tame rnd (option_map stripLineBreaks existingText) letters d ->
  exists text,
    getTextContentWithImageAtSize rnd d existingText words letters = Ok text
    /\ text_of_grid
         (cell_content letters (option_map stripLineBreaks existingText) words d) d text.
Proof.
  intros Htame. unfold getTextContentWithImageAtSize. cbv zeta.
  destruct (forY_grid rnd (option_map stripLineBreaks existingText) words letters d
              Htame (height d) (initialLoop 0) [])
    as (st' & rows & Hrun & Hchars & Hlen & Hrows);
    try reflexivity.
  - simpl. intros s [= <-]. reflexivity.
  - constructor.
  - simpl. lia.
  - rewrite Hrun. exists (chars st'). split; [reflexivity |].
    exists rows. split; [exact Hchars |].
    simpl in Hlen. rewrite Hlen in Hrows. exact Hrows.
Qed.

(** X5. Let the draws lie in the unit interval, the palette be non-empty, the
    buffer hold every cell, and the previous text (line breaks removed) be
    absent, empty or long enough to reach every cell. Then, whatever the
    draws and whatever words are configured, the compositor returns a text of
    [height] rows of [width] code units, each row followed by a line break,
    so of [height * (width + 1)] code units in all; every cell that is not
    filled holds a space, and every filled cell holds a character of the
    palette, the character of the previous text at the index of the cell, or
    a character of a configured word. *)
Theorem frame_has_grid_shape (rnd : tape) (d : ImageData)
    (existingText : option jsstring) (words : list jsstring) (letters : jsstring) :
  in_unit rnd -> letters <> [] -> covers d ->
  (truthy (option_map stripLineBreaks existingText) = true ->
   width d * height d
   <= length (default [] (option_map stripLineBreaks existingText))) ->
  exists text,
    getTextContentWithImageAtSize rnd d existingText words letters = Ok text
    /\ text_of_grid
         (cell_content letters (option_map stripLineBreaks existingText) words d) d text
    /\ length text = height d * (width d + 1).
Proof.
  intros Hunit Hne Hcov Hprev.
  destruct (compositor_cells rnd d existingText words letters) as (text & Hrun & Hgrid).
  { split; [exact Hunit |]. split; [exact Hne |]. split; [exact Hcov | exact Hprev]. }
  exists text. split; [exact Hrun |]. split; [exact Hgrid |].
  exact (text_of_grid_length _ _ _ Hgrid).
Qed.

Lemma frame_has_grid_shape_witness :
  exists text,
    getTextContentWithImageAtSize low
      (mkImageData 2 2 (darkPixel ++ darkPixel ++ lightPixel ++ darkPixel))
      (Some (js "ab" ++ [LF] ++ js "cd" ++ [LF])) [js "HI"] (js "01")
    = Ok text
    /\ length text = 6.
Proof.
  destruct (frame_has_grid_shape low
              (mkImageData 2 2 (darkPixel ++ darkPixel ++ lightPixel ++ darkPixel))
              (Some (js "ab" ++ [LF] ++ js "cd" ++ [LF])) [js "HI"] (js "01"))
    as (text & Hrun & _ & Hlen).
  - intros k. split; [discriminate | reflexivity].
  - discriminate.
  - unfold covers. simpl. lia.
  - intros _. simpl. lia.
  - exists text. split; [exact Hrun | exact Hlen].
Defined.

(** ** Frame compositor: from one tick to the next *)

Lemma stripLineBreaks_frame (cellOK : nat -> N -> Prop) (ys : list nat)
    (rows : list jsstring) (w : nat) :
  (forall k c, cellOK k c -> c <> CR /\ c <> LF) ->
  Forall2 (fun y row => Forall2 cellOK (seq (y * w) w) row) ys rows ->
  stripLineBreaks (concat (map (fun row => row ++ [LF]) rows)) = concat rows
  /\ length (concat rows) = length ys * w.
Proof.
  intros Hfree Hall.
  induction Hall as [| y row ys rows Hrow _ [IH1 IH2]].
  - split; reflexivity.
  - cbn [map concat length]. rewrite stripLineBreaks_filter in IH1 |- *.
    unfold jsstring in *. rewrite !filter_app, IH1, !length_app, IH2.
    rewrite filter_cons_False by (intros [_ Hlf]; congruence).
    rewrite filter_nil, app_nil_r.
    assert (Hlen : length row = w)
      by (apply Forall2_length in Hrow; rewrite length_seq in Hrow; lia).
    split; [| lia]. f_equal.
    clear - Hrow Hfree. induction Hrow as [| k c ks row Hc _ IH]; [reflexivity |].
    rewrite filter_cons_True by (exact (Hfree _ _ Hc)). f_equal. exact IH.
Qed.

(** The text of a frame, its line breaks removed, has one code unit per cell. *)
Lemma frame_stripped (d : ImageData) (text : jsstring) :
  frame_of d text -> length (stripLineBreaks text) = width d * height d.
Proof.
  intros (rows & -> & Hrows).
  destruct (stripLineBreaks_frame _ _ _ _ (fun k c H => proj2 H) Hrows) as [-> ->].
  rewrite length_seq. lia.
Qed.

Lemma stripLineBreaks_break_free (s : jsstring) (c : N) :
  In c (stripLineBreaks s) -> c <> CR /\ c <> LF.
Proof.
  rewrite stripLineBreaks_filter. intros Hin.
  apply list_elem_of_In, list_elem_of_filter in Hin as [Hc _]. exact Hc.
Qed.

(** X6. Frames stay frames from one tick to the next. Let the palette be
    non-empty and, like every configured word, free of line breaks; let the
    draws lie in the unit interval and the buffer hold every cell. If there is
    no previous text, or the previous text is a frame of a grid with at least
    as many cells, the compositor returns a frame of the grid: rows of [width]
    code units, none of them a line break, with a space at every cell that is
    not filled. So on a surface that does not grow, every tick gets a previous
    text that reaches every cell. *)
Theorem tick_keeps_frame (rnd : tape) (d : ImageData)
    (existingText : option jsstring) (words : list jsstring) (letters : jsstring) :
  in_unit rnd -> letters <> [] -> covers d ->
  break_free letters -> Forall break_free words ->
  (existingText = None
   \/ exists previous d0,
        existingText = Some previous /\ frame_of d0 previous
        /\ width d * height d <= width d0 * height d0) ->
  exists text,
    getTextContentWithImageAtSize rnd d existingText words letters = Ok text
    /\ frame_of d text.
Proof.
  intros Hunit Hne Hcov Hletters Hwords Hprev.
  destruct (compositor_cells rnd d existingText words letters)
    as (text & Hrun & rows & -> & Hrows).
  { split; [exact Hunit |]. split; [exact Hne |]. split; [exact Hcov |].
    destruct Hprev as [-> | (previous & d0 & -> & Hframe & Hcells)];
      [discriminate |].
    intros _. simpl. rewrite (frame_stripped d0 previous Hframe). exact Hcells. }
  exists (concat (map (fun row => row ++ [LF]) rows)).
  split; [exact Hrun |]. exists rows. split; [reflexivity |].
  eapply Forall2_impl; [exact Hrows |]. intros y row Hrow.
  eapply Forall2_impl; [exact Hrow |]. intros k c Hc.
  unfold cell_content in Hc. destruct (filledAt d k).
  - split; [discriminate |].
    destruct Hc as [Hin | [Hnth | (word & Hword & Hin)]].
    + unfold break_free in Hletters. rewrite Forall_forall in Hletters.
      apply Hletters, list_elem_of_In, Hin.
    + apply nth_error_In in Hnth. destruct existingText as [previous |];
        [| destruct Hnth].
      exact (stripLineBreaks_break_free _ _ Hnth).
    + rewrite Forall_forall in Hwords.
      specialize (Hwords word (proj2 (list_elem_of_In _ _) Hword)).
      unfold break_free in Hwords. rewrite Forall_forall in Hwords.
      apply Hwords, list_elem_of_In, Hin.
  - subst c. split; [reflexivity |]. split; discriminate.
Qed.

Lemma tick_keeps_frame_witness :
  exists first second,
    getTextContentWithImageAtSize half
      (mkImageData 2 1 (darkPixel ++ lightPixel)) None [js "HI"] (js "01")
    = Ok first
    /\ getTextContentWithImageAtSize low
         (mkImageData 2 1 (darkPixel ++ lightPixel)) (Some first) [js "HI"] (js "01")
       = Ok second
    /\ frame_of (mkImageData 2 1 (darkPixel ++ lightPixel)) second.
Proof.
  assert (Hhalf : in_unit half) by (intros k; split; [discriminate | reflexivity]).
  assert (Hlow : in_unit low) by (intros k; split; [discriminate | reflexivity]).
  assert (Hcov : covers (mkImageData 2 1 (darkPixel ++ lightPixel)))
    by (unfold covers; simpl; lia).
  assert (Hletters : break_free (js "01"))
    by (repeat constructor; discriminate).
  assert (Hwords : Forall break_free [js "HI"])
    by (repeat constructor; discriminate).
  destruct (tick_keeps_frame half (mkImageData 2 1 (darkPixel ++ lightPixel)) None
              [js "HI"] (js "01") Hhalf ltac:(discriminate) Hcov Hletters Hwords
              (or_introl eq_refl))
    as (first & Hfirst & Hframe).
  destruct (tick_keeps_frame low (mkImageData 2 1 (darkPixel ++ lightPixel))
              (Some first) [js "HI"] (js "01") Hlow ltac:(discriminate) Hcov
              Hletters Hwords)
    as (second & Hsecond & Hframe2).
  - right. exists first, (mkImageData 2 1 (darkPixel ++ lightPixel)).
    split; [reflexivity |]. split; [exact Hframe | simpl; lia].
  - exists first, second. split; [exact Hfirst |]. split; [exact Hsecond | exact Hframe2].
Defined.

(** ** Surface lifecycle: what one call does to the world *)

Section LifecycleEffects.

Context {browser : Browser}.

Lemma write_effects (rnd : tape) (element : HTMLDivElement) (image : HTMLImageElement)
    (text : option jsstring) (ws : list jsstring) (ls : jsstring) (w : World) :
  let r := write rnd element image text ws ls w in
  w_config (snd r) = w_config w /\ instances (snd r) = instances w
  /\ intervals (snd r) = intervals w /\ observers (snd r) = observers w
  /\ next_interval (snd r) = next_interval w /\ next_observer (snd r) = next_observer w
  /\ (forall e, e <> element -> document (snd r) e = document w e)
  /\ attributes (document (snd r) element) = attributes (document w element)
  /\ style_height (document (snd r) element) = style_height (document w element)
  /\ (forall msg, fst r = Throw msg -> snd r = w).
Proof.
  unfold write. cbv zeta.
  destruct (getImageData _ _ _) as [d | e];
    [destruct (getTextContentWithImageAtSize _ _ _ _ _) as [t | e] |];
    simpl; rewrite ?decide_True by reflexivity;
      repeat split; try reflexivity; try discriminate;
      intros e' Hne; rewrite decide_False by exact Hne; reflexivity.
Qed.

(** What [render] does: it forces the height of the element, and then it
    throws, with nothing else changed or with one observer connected, or it
    returns the entry of a new timer and a new observer. *)
Lemma render_effects (rnd : tape) (element : HTMLDivElement) (image : HTMLImageElement)
    (w : World) :
  let r := render rnd element image w in
  w_config (snd r) = w_config w /\ instances (snd r) = instances w
  /\ (forall e, e <> element -> document (snd r) e = document w e)
  /\ match fst r with
     | Ok metadata =>
         metadata = mkInstance (next_interval w) (next_observer w)
         /\ (exists delay,
               intervals (snd r) = <[next_interval w := (element, delay)]> (intervals w))
         /\ observers (snd r) = <[next_observer w := element]> (observers w)
         /\ next_interval (snd r) = S (next_interval w)
         /\ next_observer (snd r) = S (next_observer w)
     | Throw _ =>
         intervals (snd r) = intervals w /\ next_interval (snd r) = next_interval w
         /\ ((observers (snd r) = observers w /\ next_observer (snd r) = next_observer w)
             \/ (observers (snd r) = <[next_observer w := element]> (observers w)
                 /\ next_observer (snd r) = S (next_observer w)))
     end.
Proof.
  unfold render. cbv zeta.
  destruct (_ || _).
  - simpl. repeat split; try reflexivity.
    + intros e Hne. rewrite decide_False by exact Hne. reflexivity.
    + left. split; reflexivity.
  - unfold observe.
    match goal with
    | |- context [write rnd element image None ?ws ?ls ?a] =>
        pose proof (write_effects rnd element image None ws ls a) as Hw;
        destruct (write rnd element image None ws ls a) as [[t | e] w1]
    end; cbv zeta in Hw; cbn [fst snd] in Hw;
      destruct Hw as (Hc & Hi & Hint & Hobs & Hni & Hno & Hdoc & _).
    + unfold setInterval. cbn [fst snd]. simpl.
      simpl in Hc, Hi, Hint, Hobs, Hni, Hno, Hdoc.
      rewrite Hc, Hi, Hint, Hobs, Hni, Hno.
      repeat split; try reflexivity.
      * intros e Hne. rewrite Hdoc by exact Hne.
        rewrite decide_False by exact Hne. reflexivity.
      * eexists. reflexivity.
    + cbn [fst snd]. simpl in Hc, Hi, Hint, Hobs, Hni, Hno, Hdoc.
      repeat split; try assumption.
      * intros e' Hne. rewrite Hdoc by exact Hne.
        rewrite decide_False by exact Hne. reflexivity.
      * right. split; assumption.
Qed.

Lemma set_instances_fields (f : gmap HTMLDivElement InitializedInstance ->
                                gmap HTMLDivElement InitializedInstance) (w : World) :
  w_config (set_instances f w) = w_config w
  /\ document (set_instances f w) = document w
  /\ intervals (set_instances f w) = intervals w
  /\ observers (set_instances f w) = observers w
  /\ next_interval (set_instances f w) = next_interval w
  /\ next_observer (set_instances f w) = next_observer w
  /\ instances (set_instances f w) = f (instances w).
Proof. repeat split. Qed.

(** What the [load] handler does, whether the element is registered or not. *)
Lemma initElement_load_effects (rnd : tape) (element : HTMLDivElement)
    (image : option HTMLImageElement) (w : World) :
  let r := initElement_load rnd element image w in
  w_config (snd r) = w_config w
  /\ (forall e, e <> element -> document (snd r) e = document w e)
  /\ match fst r with
     | Resolved _ => activated element w (snd r)
     | Rejected _ => snd r = w
     | Pending => not_activated element w (snd r)
     end.
Proof.
  unfold initElement_load. cbv zeta. destruct image as [image |];
    [| repeat split; reflexivity].
  pose proof (render_effects rnd element image w) as Hr. cbv zeta in Hr.
  destruct (render rnd element image w) as [[metadata | msg] w1].
  - cbn [fst snd] in *.
    destruct Hr as (Hc & Hi & Hdoc & -> & (delay & Hint) & Hobs & Hni & Hno).
    split; [exact Hc |]. split; [exact Hdoc |].
    exists delay. simpl. rewrite Hi. repeat split; assumption.
  - cbn [fst snd] in *. destruct Hr as (Hc & Hi & Hdoc & Hint & Hni & Hobs).
    split; [exact Hc |]. split; [exact Hdoc |].
    split; [exact Hi |]. split; [exact Hint |]. split; [exact Hni | exact Hobs].
Qed.

(** One call of [initElement] is its steps run back to back. *)
Lemma initElement_in_steps (rnd : tape) (element : HTMLDivElement) (w : World) :
  initElement rnd element w = initElement_steps rnd element w.
Proof.
  unfold initElement, initElement_steps, initElement_call, initElement_data,
    loadAndRender, startLoading, initElement_load. cbv zeta.
  destruct (bool_decide _); [reflexivity |].
  destruct (hasAttribute _ _).
  - destruct (_ || _); [reflexivity |].
    destruct (textDataURL _ _ _) as [data | reason |]; try reflexivity.
    destruct (negb _); [reflexivity |].
    destruct (loadImage _); reflexivity.
  - destruct (negb _); [reflexivity |].
    destruct (loadImage _); reflexivity.
Qed.

(** What one call of [initElement] does on an element that is not
    registered. *)
Lemma initElement_effects (rnd : tape) (element : HTMLDivElement) (w : World) :
  instances w !! element = None ->
  let r := initElement rnd element w in
  w_config (snd r) = w_config w
  /\ (forall e, e <> element -> document (snd r) e = document w e)
  /\ match fst r with
     | Resolved _ =>
         exists w0, activated element w0 (snd r)
                    /\ instances w0 = instances w /\ intervals w0 = intervals w
                    /\ observers w0 = observers w
                    /\ next_interval w0 = next_interval w
                    /\ next_observer w0 = next_observer w
     | Rejected _ =>
         not_activated element w (snd r) /\ observers (snd r) = observers w
         /\ textContent (document (snd r) element) = textContent (document w element)
         /\ style_height (document (snd r) element) = style_height (document w element)
     | Pending => not_activated element w (snd r)
     end.
Proof.
  intros Hnone. rewrite initElement_in_steps. cbv zeta.
  unfold initElement_steps, initElement_call.
  rewrite Hnone, bool_decide_eq_false_2 by (intros [? [=]]). cbv zeta.
  assert (Hsame : forall w1, w1 = w ->
            not_activated element w w1 /\ observers w1 = observers w
            /\ textContent (document w1 element) = textContent (document w element)
            /\ style_height (document w1 element) = style_height (document w element)).
  { intros w1 ->. repeat split. left. split; reflexivity. }
  assert (Hload : forall src w0,
            w_config w0 = w_config w ->
            (forall e, e <> element -> document w0 e = document w e) ->
            instances w0 = instances w -> intervals w0 = intervals w ->
            observers w0 = observers w -> next_interval w0 = next_interval w ->
            next_observer w0 = next_observer w ->
            textContent (document w0 element) = textContent (document w element) ->
            style_height (document w0 element) = style_height (document w element) ->
            let r := initElement_load rnd element (loadImage src) w0 in
            w_config (snd r) = w_config w
            /\ (forall e, e <> element -> document (snd r) e = document w e)
            /\ match fst r with
               | Resolved _ =>
                   exists w0, activated element w0 (snd r)
                              /\ instances w0 = instances w /\ intervals w0 = intervals w
                              /\ observers w0 = observers w
                              /\ next_interval w0 = next_interval w
                              /\ next_observer w0 = next_observer w
               | Rejected _ =>
                   not_activated element w (snd r) /\ observers (snd r) = observers w
                   /\ textContent (document (snd r) element)
                      = textContent (document w element)
                   /\ style_height (document (snd r) element)
                      = style_height (document w element)
               | Pending => not_activated element w (snd r)
               end).
  { intros src w0 Hc Hdoc Hi Hint Hobs Hni Hno Htext Hheight.
    pose proof (initElement_load_effects rnd element (loadImage src) w0) as He.
    cbv zeta in He |- *.
    destruct (initElement_load rnd element (loadImage src) w0) as [[[] | reason |] w1];
      cbn [fst snd] in *; destruct He as (Hc1 & Hdoc1 & He).
    - split; [congruence |]. split.
      + intros e Hne. rewrite Hdoc1, Hdoc by exact Hne. reflexivity.
      + exists w0. repeat split; assumption.
    - subst w1. split; [exact Hc |]. split; [exact Hdoc |].
      split; [| split; [exact Hobs | split; assumption]].
      split; [exact Hi |]. split; [exact Hint |]. split; [exact Hni |].
      left. split; assumption.
    - split; [congruence |]. split.
      + intros e Hne. rewrite Hdoc1, Hdoc by exact Hne. reflexivity.
      + destruct He as (Hi1 & Hint1 & Hni1 & Hobs1).
        split; [congruence |]. split; [congruence |]. split; [congruence |].
        rewrite Hobs, Hno in Hobs1. exact Hobs1. }
  destruct (hasAttribute _ _).
  - destruct (_ || _).
    { cbn [fst snd]. split; [reflexivity |]. split; [reflexivity |]. apply Hsame.
      reflexivity. }
    destruct (textDataURL _ _ _) as [data | reason |]; cbn [initElement_data].
    + unfold startLoading. cbv zeta.
      destruct (negb _).
      * cbn [fst snd]. split; [reflexivity |]. split.
        { intros e Hne. apply document_update_ne. exact Hne. }
        split; [| split; [reflexivity |]].
        { repeat split. left. split; reflexivity. }
        rewrite document_update_eq. split; reflexivity.
      * apply Hload; try reflexivity.
        -- intros e Hne. apply document_update_ne. exact Hne.
        -- rewrite document_update_eq. reflexivity.
        -- rewrite document_update_eq. reflexivity.
    + cbn [fst snd]. split; [reflexivity |]. split; [reflexivity |]. apply Hsame.
      reflexivity.
    + cbn [fst snd]. split; [reflexivity |]. split; [reflexivity |].
      repeat split. left. split; reflexivity.
  - unfold startLoading. cbv zeta. destruct (negb _).
    + cbn [fst snd]. split; [reflexivity |]. split; [reflexivity |]. apply Hsame.
      reflexivity.
    + apply Hload; reflexivity.
Qed.

(** What [resetElement] does to the registry, the timers and the observers. *)
Lemma resetElement_effects (element : HTMLDivElement) (w : World) :
  let r := resetElement element w in
  w_config (snd r) = w_config w
  /\ instances (snd r) = delete element (instances w)
  /\ (forall e, e <> element -> document (snd r) e = document w e)
  /\ next_interval (snd r) = next_interval w
  /\ next_observer (snd r) = next_observer w
  /\ match instances w !! element with
     | Some metadata =>
         fst r = Resolved tt
         /\ intervals (snd r) = delete (intervalId metadata) (intervals w)
         /\ observers (snd r) = delete (observer metadata) (observers w)
         /\ document (snd r) element
            = mkElement (attributes (document w element)) None []
     | None =>
         fst r = Rejected (Error "Element not initialized") /\ snd r = w
     end.
Proof.
  unfold resetElement. cbv zeta.
  destruct (instances w !! element) as [metadata |] eqn:Hreg; cbn [fst snd].
  - repeat split.
    + intros e Hne. rewrite !document_update_ne by exact Hne. reflexivity.
    + rewrite !document_update_eq. reflexivity.
  - repeat split. symmetry. apply delete_id. exact Hreg.
Qed.

End LifecycleEffects.

(** ** Surface lifecycle: calls do not reach beyond their element *)

Section LifecycleLaws.

Context {browser : Browser}.

(** X7. [initElement] and [resetElement] work on their element alone:
    whatever the outcome of the call, every other element keeps its
    attributes, text and height and its registry entry (or its absence), and
    the settings are not touched. *)
Theorem lifecycle_calls_are_local (rnd : tape) (element e : HTMLDivElement)
    (w : World) :
  e <> element ->
  (document (snd (initElement rnd element w)) e = document w e
   /\ instances (snd (initElement rnd element w)) !! e = instances w !! e
   /\ w_config (snd (initElement rnd element w)) = w_config w)
  /\ (document (snd (resetElement element w)) e = document w e
      /\ instances (snd (resetElement element w)) !! e = instances w !! e
      /\ w_config (snd (resetElement element w)) = w_config w).
Proof.
  intros Hne. split.
  - destruct (instances w !! element) as [metadata |] eqn:Hreg.
    + rewrite initElement_registered by (rewrite Hreg; eauto).
      repeat split.
    + pose proof (initElement_effects rnd element w Hreg) as He. cbv zeta in He.
      destruct He as (Hc & Hdoc & Hout).
      split; [apply Hdoc; exact Hne |]. split; [| exact Hc].
      destruct (fst (initElement rnd element w)) as [[] | reason |].
      * destruct Hout as (w0 & (delay & Hi & _) & Hi0 & _).
        rewrite Hi, Hi0. apply lookup_insert_ne. congruence.
      * destruct Hout as ((Hi & _) & _). rewrite Hi. reflexivity.
      * destruct Hout as (Hi & _). rewrite Hi. reflexivity.
  - pose proof (resetElement_effects element w) as He. cbv zeta in He.
    destruct He as (Hc & Hi & Hdoc & _).
    split; [apply Hdoc; exact Hne |]. split; [| exact Hc].
    rewrite Hi. apply lookup_delete_ne. congruence.
Qed.

(** X8. What a call of [initElement] on an unregistered element leaves
    behind, by outcome. Resolved: one new timer and one new observer, both on
    the element, and the registry entry that holds their ids. Not resolved
    (rejected or never settled): the registry and the timers are as before,
    so nothing writes to the element. Rejected: also the observers and the
    text and height of the element are as before. *)
Theorem initElement_outcomes (rnd : tape) (element : HTMLDivElement) (w : World) :
  instances w !! element = None ->
  (fst (initElement rnd element w) = Resolved tt ->
   instances (snd (initElement rnd element w))
   = <[element := mkInstance (next_interval w) (next_observer w)]> (instances w)
   /\ (exists delay,
         intervals (snd (initElement rnd element w))
         = <[next_interval w := (element, delay)]> (intervals w))
   /\ observers (snd (initElement rnd element w))
      = <[next_observer w := element]> (observers w))
  /\ (fst (initElement rnd element w) <> Resolved tt ->
      instances (snd (initElement rnd element w)) = instances w
      /\ intervals (snd (initElement rnd element w)) = intervals w)
  /\ (forall reason, fst (initElement rnd element w) = Rejected reason ->
      observers (snd (initElement rnd element w)) = observers w
      /\ textContent (document (snd (initElement rnd element w)) element)
         = textContent (document w element)
      /\ style_height (document (snd (initElement rnd element w)) element)
         = style_height (document w element)).
Proof.
  intros Hnone.
  pose proof (initElement_effects rnd element w Hnone) as He. cbv zeta in He.
  destruct He as (_ & _ & Hout).
  destruct (fst (initElement rnd element w)) as [[] | reason |].
  - destruct Hout as (w0 & (delay & Hi & Hint & Hobs & _) & Hi0 & Hint0 & Hobs0
                      & Hni & Hno).
    split; [| split; [congruence | discriminate]].
    intros _. rewrite Hi, Hint, Hobs, Hi0, Hint0, Hobs0, Hni, Hno.
    split; [reflexivity |]. split; [exists delay; reflexivity | reflexivity].
  - destruct Hout as ((Hi & Hint & _) & Hobs & Htext & Hheight).
    split; [discriminate |]. split; [intros _; split; assumption |].
    intros _ _. repeat split; assumption.
  - destruct Hout as (Hi & Hint & _).
    split; [discriminate |]. split; [intros _; split; assumption | discriminate].
Qed.

End LifecycleLaws.

Lemma lifecycle_calls_are_local_witness :
  document (snd (initElement (browser := sampleBrowser) half 1%positive idleWorld))
    2%positive
  = imageDiv
  /\ instances (snd (resetElement 1%positive activeWorld)) !! 2%positive = None.
Proof.
  split.
  - apply (proj1 (lifecycle_calls_are_local (browser := sampleBrowser) half
                    1%positive 2%positive idleWorld ltac:(discriminate))).
  - apply (proj2 (lifecycle_calls_are_local (browser := sampleBrowser) half
                    1%positive 2%positive activeWorld ltac:(discriminate))).
Defined.

Lemma initElement_outcomes_witness :
  instances (snd (initElement (browser := sampleBrowser) half 1%positive idleWorld))
  = <[1%positive := mkInstance 1 0]> ∅.
Proof.
  apply (proj1 (initElement_outcomes (browser := sampleBrowser) half 1%positive
                  idleWorld eq_refl)).
  vm_compute. reflexivity.
Defined.

(** ** Surface lifecycle: the registry and the timers fit together *)

Section LifecycleConsistency.

Context {browser : Browser}.

Lemma activated_consistent (element : HTMLDivElement) (w0 w w' : World) :
  consistent w -> instances w !! element = None ->
  activated element w0 w' ->
  instances w0 = instances w -> intervals w0 = intervals w ->
  observers w0 = observers w -> next_interval w0 = next_interval w ->
  next_observer w0 = next_observer w ->
  consistent w'.
Proof.
  intros (Hentry & Htimer & Hids & Hobs) Hnone
         (delay & Hi & Hint & Hob & Hni & Hno) Hi0 Hint0 Hob0 Hni0 Hno0.
  rewrite Hi0, Hni0, Hno0 in Hi. rewrite Hint0, Hni0 in Hint.
  rewrite Hob0, Hno0 in Hob. rewrite Hni0 in Hni. rewrite Hno0 in Hno.
  split; [| split; [| split]].
  - intros e m. rewrite Hi, Hint, Hob.
    destruct (decide (e = element)) as [-> | Hne].
    + rewrite lookup_insert_eq. intros [= <-]. simpl.
      rewrite !lookup_insert_eq. eauto.
    + rewrite lookup_insert_ne by congruence. intros Hm.
      destruct (Hentry e m Hm) as [[d Hd] Ho].
      assert (intervalId m < next_interval w) by (apply Hids; eauto).
      assert (observer m < next_observer w) by (apply Hobs; eauto).
      rewrite !lookup_insert_ne by lia. eauto.
  - intros id e d. rewrite Hint, Hi.
    destruct (decide (id = next_interval w)) as [-> | Hne].
    + rewrite lookup_insert_eq. intros [= <- <-].
      rewrite lookup_insert_eq. eauto.
    + rewrite lookup_insert_ne by congruence. intros Hd.
      destruct (Htimer id e d Hd) as (m & Hm & Hid).
      exists m. split; [| exact Hid].
      rewrite lookup_insert_ne by congruence. exact Hm.
  - intros id. rewrite Hint, Hni. intros Hsome.
    apply lookup_insert_is_Some in Hsome as [<- | [_ Hsome]]; [lia |].
    specialize (Hids id Hsome). lia.
  - intros o. rewrite Hob, Hno. intros Hsome.
    apply lookup_insert_is_Some in Hsome as [<- | [_ Hsome]]; [lia |].
    specialize (Hobs o Hsome). lia.
Qed.

Lemma not_activated_consistent (element : HTMLDivElement) (w w' : World) :
  consistent w -> not_activated element w w' -> consistent w'.
Proof.
  intros (Hentry & Htimer & Hids & Hobs) (Hi & Hint & Hni & Hob).
  split; [| split; [| split]].
  - intros e m. rewrite Hi, Hint. intros Hm.
    destruct (Hentry e m Hm) as [Hd Ho]. split; [exact Hd |].
    destruct Hob as [[-> _] | [-> _]]; [exact Ho |].
    assert (observer m < next_observer w) by (apply Hobs; eauto).
    rewrite lookup_insert_ne by lia. exact Ho.
  - intros id e d. rewrite Hint, Hi. apply Htimer.
  - intros id. rewrite Hint, Hni. apply Hids.
  - intros o. destruct Hob as [[-> ->] | [-> ->]]; [apply Hobs |].
    intros Hsome. apply lookup_insert_is_Some in Hsome as [<- | [_ Hsome]]; [lia |].
    specialize (Hobs o Hsome). lia.
Qed.

Lemma initElement_consistent (rnd : tape) (element : HTMLDivElement) (w : World) :
  consistent w -> consistent (snd (initElement rnd element w)).
Proof.
  intros Hcons. destruct (instances w !! element) as [metadata |] eqn:Hreg.
  - rewrite initElement_registered by (rewrite Hreg; eauto). exact Hcons.
  - pose proof (initElement_effects rnd element w Hreg) as He. cbv zeta in He.
    destruct He as (_ & _ & Hout).
    destruct (fst (initElement rnd element w)) as [[] | reason |].
    + destruct Hout as (w0 & Hact & Hi0 & Hint0 & Hob0 & Hni0 & Hno0).
      exact (activated_consistent _ _ _ _ Hcons Hreg Hact Hi0 Hint0 Hob0 Hni0 Hno0).
    + exact (not_activated_consistent _ _ _ Hcons (proj1 Hout)).
    + exact (not_activated_consistent _ _ _ Hcons Hout).
Qed.

Lemma resetElement_consistent (element : HTMLDivElement) (w : World) :
  consistent w -> consistent (snd (resetElement element w)).
Proof.
  intros Hcons. pose proof Hcons as (Hentry & Htimer & Hids & Hobs).
  pose proof (resetElement_effects element w) as He. cbv zeta in He.
  destruct He as (_ & Hi & _ & Hni & Hno & Hout).
  destruct (instances w !! element) as [metadata |] eqn:Hreg;
    [| destruct Hout as [_ ->]; exact Hcons].
  destruct Hout as (_ & Hint & Hob & _).
  destruct (Hentry element metadata Hreg) as [[delay Hd] Ho].
  split; [| split; [| split]].
  - intros e m. rewrite Hi, Hint, Hob. intros Hm.
    apply lookup_delete_Some in Hm as [Hne Hm].
    destruct (Hentry e m Hm) as [[d' Hd'] Ho'].
    rewrite !lookup_delete_ne by (intros Heq; rewrite Heq in *; congruence).
    eauto.
  - intros id e d. rewrite Hint, Hi. intros Hlook.
    apply lookup_delete_Some in Hlook as [Hne Hlook].
    destruct (Htimer id e d Hlook) as (m & Hm & Hid).
    exists m. split; [| exact Hid].
    rewrite lookup_delete_ne; [exact Hm |].
    intros <-. rewrite Hreg in Hm. injection Hm as <-. congruence.
  - intros id. rewrite Hint, Hni. intros Hsome.
    apply lookup_delete_is_Some in Hsome as [_ Hsome]. apply Hids, Hsome.
  - intros o. rewrite Hob, Hno. intros Hsome.
    apply lookup_delete_is_Some in Hsome as [_ Hsome]. apply Hobs, Hsome.
Qed.

Lemma empty_consistent (w : World) :
  instances w = ∅ -> intervals w = ∅ -> observers w = ∅ -> consistent w.
Proof.
  intros Hi Hint Hob. unfold consistent. rewrite Hi, Hint, Hob.
  split; [| split; [| split]].
  - intros e m Hm. rewrite lookup_empty in Hm. discriminate.
  - intros id e d Hd. rewrite lookup_empty in Hd. discriminate.
  - intros id [x Hx]. rewrite lookup_empty in Hx. discriminate.
  - intros o [x Hx]. rewrite lookup_empty in Hx. discriminate.
Qed.

(** X9. The registry agrees with the timers and the observers, and calls
    that run one after the other keep it so: when nothing is registered and
    no timer runs the world is consistent, and [initElement] and
    [resetElement], whatever their outcome, lead from a consistent world to a
    consistent one. In a consistent world every registry entry holds a
    running timer and a connected observer on its element, and every running
    timer belongs to the entry of the element it writes to. *)
Theorem lifecycle_keeps_consistent :
  (forall w, instances w = ∅ -> intervals w = ∅ -> observers w = ∅ -> consistent w)
  /\ (forall rnd element w,
        consistent w -> consistent (snd (initElement rnd element w)))
  /\ (forall element w, consistent w -> consistent (snd (resetElement element w))).
Proof.
  split; [exact empty_consistent |].
  split; [exact initElement_consistent | exact resetElement_consistent].
Qed.

End LifecycleConsistency.

Lemma lifecycle_keeps_consistent_witness :
  consistent idleWorld
  /\ consistent (snd (initElement (browser := sampleBrowser) half 1%positive idleWorld))
  /\ consistent
       (snd (resetElement 1%positive
               (snd (initElement (browser := sampleBrowser) half 1%positive
                       idleWorld)))).
Proof.
  assert (Hidle : consistent idleWorld)
    by (apply (proj1 (lifecycle_keeps_consistent (browser := sampleBrowser)));
        reflexivity).
  assert (Hactive : consistent
            (snd (initElement (browser := sampleBrowser) half 1%positive idleWorld)))
    by (apply (proj1 (proj2 (lifecycle_keeps_consistent (browser := sampleBrowser))));
        exact Hidle).
  split; [exact Hidle |]. split; [exact Hactive |].
  apply (proj2 (proj2 (lifecycle_keeps_consistent (browser := sampleBrowser)))).
  exact Hactive.
Defined.

(** ** Surface lifecycle: resetting several elements *)

Lemma resetElements_cons (element : HTMLDivElement) (rest : list HTMLDivElement)
    (w : World) :
  resetElements (element :: rest) w
  = (promiseAll (fst (resetElement element w))
       (fst (resetElements rest (snd (resetElement element w)))),
     snd (resetElements rest (snd (resetElement element w)))).
Proof.
  simpl. destruct (resetElement element w) as [first w1]. cbn [fst snd].
  destruct (resetElements rest w1) as [others w2]. reflexivity.
Qed.

Lemma resetElements_instances (elements : list HTMLDivElement) (w : World)
    (e : HTMLDivElement) :
  instances (snd (resetElements elements w)) !! e
  = if bool_decide (e ∈ elements) then None else instances w !! e.
Proof.
  revert w. induction elements as [| element rest IH]; intros w.
  - rewrite bool_decide_eq_false_2 by (apply not_elem_of_nil). reflexivity.
  - rewrite resetElements_cons. cbn [snd]. rewrite IH.
    pose proof (resetElement_effects element w) as He. cbv zeta in He.
    destruct He as (_ & Hi & _). rewrite Hi.
    destruct (decide (e ∈ rest)) as [Hin | Hnot].
    + rewrite (bool_decide_eq_true_2 _ Hin).
      rewrite (bool_decide_eq_true_2 _ (list_elem_of_further _ element _ Hin)).
      reflexivity.
    + rewrite (bool_decide_eq_false_2 _ Hnot).
      destruct (decide (element = e)) as [-> | Hne].
      * rewrite bool_decide_eq_true_2 by (apply list_elem_of_here).
        apply lookup_delete_eq.
      * rewrite bool_decide_eq_false_2
          by (intros Hin; apply elem_of_cons in Hin as [Heq | Hin]; congruence).
        apply lookup_delete_ne. exact Hne.
Qed.

Lemma resetElements_outcome (elements : list HTMLDivElement) (w : World) :
  (fst (resetElements elements w) = Resolved tt
   <-> NoDup elements /\ forall e, In e elements -> is_Some (instances w !! e))
  /\ (fst (resetElements elements w) = Resolved tt
      \/ fst (resetElements elements w) = Rejected (Error "Element not initialized")).
Proof.
  revert w. induction elements as [| element rest IH]; intros w.
  - split; [| left; reflexivity].
    split; [intros _; split; [constructor | intros e []] | reflexivity].
  - rewrite resetElements_cons. cbn [fst].
    pose proof (resetElement_effects element w) as He. cbv zeta in He.
    destruct He as (_ & Hi & _ & _ & _ & Hout).
    destruct (IH (snd (resetElement element w))) as [IHiff IHor].
    destruct (instances w !! element) as [metadata |] eqn:Hreg.
    + destruct Hout as (-> & _). cbn [promiseAll]. split; [| exact IHor].
      rewrite IHiff, NoDup_cons, Hi. split.
      * intros [Hnd Hall]. split.
        -- split; [| exact Hnd]. intros Hin.
           apply list_elem_of_In in Hin.
           destruct (Hall element Hin) as [x Hx].
           rewrite lookup_delete_eq in Hx. discriminate.
        -- intros e [<- | Hin]; [rewrite Hreg; eauto |].
           destruct (Hall e Hin) as [x Hx].
           apply lookup_delete_Some in Hx as [_ Hx]. eauto.
      * intros [[Hnotin Hnd] Hall]. split; [exact Hnd |].
        intros e Hin. destruct (Hall e (or_intror Hin)) as [x Hx].
        exists x. apply lookup_delete_Some. split; [| exact Hx].
        intros <-. apply Hnotin, list_elem_of_In, Hin.
    + destruct Hout as (-> & _). cbn [promiseAll]. split; [| right; reflexivity].
      split; [discriminate |].
      intros [_ Hall]. destruct (Hall element (or_introl eq_refl)) as [x Hx].
      congruence.
Qed.

Lemma resetElements_cleared (elements : list HTMLDivElement) (w : World)
    (e : HTMLDivElement) :
  In e elements -> is_Some (instances w !! e) ->
  textContent (document (snd (resetElements elements w)) e) = None
  /\ style_height (document (snd (resetElements elements w)) e) = [].
Proof.
  revert w. induction elements as [| element rest IH]; intros w Hin Hreg; [destruct Hin |].
  rewrite resetElements_cons. cbn [snd].
  pose proof (resetElement_effects element w) as He. cbv zeta in He.
  destruct He as (_ & Hi & Hdoc & _ & _ & Hout).
  destruct (decide (e ∈ rest)) as [Hrest | Hnot];
    rewrite list_elem_of_In in *.
  - destruct (decide (element = e)) as [-> | Hne].
    + (* reset now; a later occurrence finds it unregistered and leaves it *)
      destruct Hreg as [metadata Hreg]. rewrite Hreg in Hout.
      destruct Hout as (_ & _ & _ & Hel).
      assert (Hkeep : forall l w0, instances w0 !! e = None ->
                        document (snd (resetElements l w0)) e = document w0 e).
      { clear. induction l as [| x l IHl]; intros w0 Hnone; [reflexivity |].
        rewrite resetElements_cons. cbn [snd].
        pose proof (resetElement_effects x w0) as He. cbv zeta in He.
        destruct He as (_ & Hi & Hdoc & _ & _ & Hout).
        rewrite IHl.
        - destruct (decide (x = e)) as [-> | Hne].
          + rewrite Hnone in Hout. destruct Hout as [_ ->]. reflexivity.
          + apply Hdoc. congruence.
        - rewrite Hi. apply lookup_delete_None. right. exact Hnone. }
      rewrite Hkeep by (rewrite Hi; apply lookup_delete_eq).
      rewrite Hel. split; reflexivity.
    + apply IH; [exact Hrest |]. rewrite Hi.
      destruct Hreg as [m Hm]. exists m. apply lookup_delete_Some. split; assumption.
  - destruct Hin as [-> | Hin]; [| contradiction].
    destruct Hreg as [metadata Hreg]. rewrite Hreg in Hout.
    destruct Hout as (_ & _ & _ & Hel).
    assert (Hkeep : forall l w0, ~ In e l ->
                      document (snd (resetElements l w0)) e = document w0 e).
    { clear. induction l as [| x l IHl]; intros w0 Hnot; [reflexivity |].
      rewrite resetElements_cons. cbn [snd].
      pose proof (resetElement_effects x w0) as He. cbv zeta in He.
      destruct He as (_ & _ & Hdoc & _).
      rewrite IHl by (intros Hin; apply Hnot; right; exact Hin).
      apply Hdoc. intros ->. apply Hnot. left. reflexivity. }
    rewrite Hkeep by exact Hnot. rewrite Hel. split; reflexivity.
Qed.

(** X10. [resetElements] resets the elements of its list one after the other
    and does not stop at a failure. It resolves exactly when the list has no
    element twice and all its elements are registered, and rejects with
    'Element not initialized' otherwise. In both cases nothing is undone:
    afterwards no element of the list is registered, every element of the
    list that was registered has no text and no forced height, and the
    elements outside the list keep their entries. *)
Theorem resetElements_batch (elements : list HTMLDivElement) (w : World) :
  (fst (resetElements elements w) = Resolved tt
   <-> NoDup elements /\ forall e, In e elements -> is_Some (instances w !! e))
  /\ (fst (resetElements elements w) <> Resolved tt ->
      fst (resetElements elements w) = Rejected (Error "Element not initialized"))
  /\ (forall e, In e elements ->
        instances (snd (resetElements elements w)) !! e = None
        /\ (is_Some (instances w !! e) ->
            textContent (document (snd (resetElements elements w)) e) = None
            /\ style_height (document (snd (resetElements elements w)) e) = []))
  /\ (forall e, ~ In e elements ->
        instances (snd (resetElements elements w)) !! e = instances w !! e).
Proof.
  destruct (resetElements_outcome elements w) as [Hiff Hor].
  split; [exact Hiff |]. split; [| split].
  - intros Hnot. destruct Hor as [Hok | Hrej]; [contradiction | exact Hrej].
  - intros e Hin. split.
    + rewrite resetElements_instances, bool_decide_eq_true_2
        by (apply list_elem_of_In; exact Hin).
      reflexivity.
    + apply resetElements_cleared. exact Hin.
  - intros e Hnot.
    rewrite resetElements_instances, bool_decide_eq_false_2
      by (rewrite list_elem_of_In; exact Hnot).
    reflexivity.
Qed.

Lemma resetElements_batch_witness :
  fst (resetElements [1%positive; 1%positive] activeWorld)
  = Rejected (Error "Element not initialized")
  /\ instances (snd (resetElements [1%positive; 1%positive] activeWorld)) !! 1%positive
     = None.
Proof.
  split.
  - apply (proj1 (proj2 (resetElements_batch [1%positive; 1%positive] activeWorld))).
    discriminate.
  - apply (proj1 (proj2 (proj2 (resetElements_batch [1%positive; 1%positive]
                                  activeWorld)))).
    left. reflexivity.
Defined.

Lemma resetElements_consistent (elements : list HTMLDivElement) (w : World) :
  consistent w -> consistent (snd (resetElements elements w)).
Proof.
  revert w. induction elements as [| element rest IH]; intros w Hcons; [exact Hcons |].
  rewrite resetElements_cons. cbn [snd]. apply IH, resetElement_consistent, Hcons.
Qed.

(** X11. [reset] stops everything: in a consistent world, [resetElements] on
    the keys of the registry, in whatever order the map lists them, resolves
    and leaves an empty registry, no running timer, and every element that
    was registered without text and forced height. *)
Theorem reset_stops_everything (keys : list HTMLDivElement) (w : World) :
  consistent w -> NoDup keys ->
  (forall e, In e keys <-> is_Some (instances w !! e)) ->
  fst (resetElements keys w) = Resolved tt
  /\ instances (snd (resetElements keys w)) = ∅
  /\ intervals (snd (resetElements keys w)) = ∅
  /\ (forall e, is_Some (instances w !! e) ->
        textContent (document (snd (resetElements keys w)) e) = None
        /\ style_height (document (snd (resetElements keys w)) e) = []).
Proof.
  intros Hcons Hnd Hkeys.
  assert (Hempty : instances (snd (resetElements keys w)) = ∅).
  { apply map_empty. intros e. rewrite resetElements_instances.
    destruct (decide (e ∈ keys)) as [Hin | Hnot].
    - rewrite bool_decide_eq_true_2 by exact Hin. reflexivity.
    - rewrite bool_decide_eq_false_2 by exact Hnot.
      destruct (instances w !! e) as [m |] eqn:Hm; [| reflexivity].
      exfalso. apply Hnot, list_elem_of_In, Hkeys. eauto. }
  split; [| split; [exact Hempty | split]].
  - apply resetElements_outcome. split; [exact Hnd |]. intros e. apply Hkeys.
  - apply map_empty. intros id.
    destruct (intervals (snd (resetElements keys w)) !! id) as [[e delay] |] eqn:Hid;
      [| reflexivity].
    destruct (resetElements_consistent keys w Hcons) as (_ & Htimer & _).
    destruct (Htimer id e delay Hid) as (m & Hm & _).
    rewrite Hempty, lookup_empty in Hm. discriminate.
  - intros e Hreg. apply resetElements_cleared; [apply Hkeys |]; exact Hreg.
Qed.

Lemma reset_stops_everything_witness :
  fst (resetElements [1%positive]
         (snd (initElement (browser := sampleBrowser) half 1%positive idleWorld)))
  = Resolved tt
  /\ intervals
       (snd (resetElements [1%positive]
               (snd (initElement (browser := sampleBrowser) half 1%positive idleWorld))))
     = ∅.
Proof.
  destruct (reset_stops_everything [1%positive]
              (snd (initElement (browser := sampleBrowser) half 1%positive idleWorld)))
    as (Hok & _ & Hint & _).
  - apply initElement_consistent, empty_consistent; reflexivity.
  - repeat constructor. apply not_elem_of_nil.
  - intros e. split.
    + intros [<- | []]. vm_compute. eauto.
    + intros [m Hm]. destruct (decide (e = 1%positive)) as [-> | Hne];
        [left; reflexivity | exfalso].
      pose proof (initElement_effects (browser := sampleBrowser) half 1%positive
                    idleWorld eq_refl) as He.
      cbv zeta in He. destruct He as (_ & _ & Hout).
      replace (fst (initElement (browser := sampleBrowser) half 1%positive idleWorld))
        with (Resolved tt) in Hout by (vm_compute; reflexivity).
      destruct Hout as (w0 & (delay & Hi & _) & Hi0 & _).
      rewrite Hi, Hi0, lookup_insert_ne in Hm by congruence.
      discriminate Hm.
  - split; [exact Hok | exact Hint].
Defined.

(** ** Surface lifecycle: activations that never settle *)

Lemma in_tl {A} (x : A) (l : list A) : In x (tl l) -> In x l.
Proof. destruct l; simpl; auto. Qed.

Lemma split_empty_segment (attr : jsstring) :
  empty_segment attr -> In [] (split SPACE attr).
Proof.
  assert (Htail : forall pre rest,
            In [] (tl (split SPACE rest)) -> In [] (tl (split SPACE (pre ++ rest)))).
  { induction pre as [| c pre IH]; intros rest Hin; [exact Hin |].
    simpl. destruct (c =? SPACE)%N.
    - simpl. apply in_tl, IH, Hin.
    - specialize (IH rest Hin). destruct (split SPACE (pre ++ rest)); exact IH. }
  intros [-> | [(post & ->) | [(pre & ->) | (pre & post & ->)]]].
  - left. reflexivity.
  - left. reflexivity.
  - apply in_tl. apply Htail. simpl. left. reflexivity.
  - apply in_tl. apply Htail. simpl. left. reflexivity.
Qed.

Section NeverSettled.

Context {browser : Browser}.

(** [initElement] on an unregistered element with an image source that
    loads is the [load] handler on the world as it is. *)
Lemma initElement_image_element (rnd : tape) (element : HTMLDivElement) (w : World)
    (src : jsstring) (image : HTMLImageElement) :
  instances w !! element = None ->
  hasAttribute (document w element) "data-lettercrap-text" = false ->
  getAttribute (document w element) "data-lettercrap" = Some src -> src <> [] ->
  loadImage src = Some image ->
  initElement rnd element w
  = match render rnd element image w with
    | (Ok metadata, w') => (Resolved tt, set_instances (<[element := metadata]>) w')
    | (Throw _, w') => (Pending, w')
    end.
Proof.
  intros Hnone Htext Hsrc Hne Himage. unfold initElement.
  rewrite Hnone, bool_decide_eq_false_2 by (intros [? [=]]).
  cbv zeta. rewrite Htext. unfold loadAndRender. cbv zeta. rewrite Hsrc.
  destruct src as [| c src]; [congruence |]. simpl. rewrite Himage. reflexivity.
Qed.

(** X12. An element whose own settings are invalid makes [initElement] hang.
    Let the element be unregistered and show an image that loads. If the
    palette it resolves to is blank, or one of its words is blank, or its
    update interval parses to a number that is not [>= 0], then [render]
    throws inside the [load] handler: the promise of [initElement] never
    settles, nothing is registered, no timer or observer is created, and the
    only trace is the forced height of the element. A [data-lettercrap-words]
    attribute that is empty, begins or ends with a space or has two spaces in
    a row is such a case. *)
Theorem invalid_settings_never_settle (rnd : tape) (element : HTMLDivElement)
    (w : World) (src : jsstring) (image : HTMLImageElement) :
  instances w !! element = None ->
  hasAttribute (document w element) "data-lettercrap-text" = false ->
  getAttribute (document w element) "data-lettercrap" = Some src -> src <> [] ->
  loadImage src = Some image ->
  let el := document w element in
  let palette :=
    nullish (getAttribute el "data-lettercrap-letters") (letters (w_config w)) in
  let wordList :=
    match getAttribute el "data-lettercrap-words" with
    | Some attr => split SPACE attr
    | None => words (w_config w)
    end in
  let interval :=
    parseInt (nullish (getAttribute el "data-lettercrap-update-interval")
                (numberToString (update_interval (w_config w)))) in
  let hung :=
    (Pending,
     update_element element (set_style_height (heightPx el image)) w) in
  (blank palette \/ Exists blank wordList \/ isNumberNonNegative interval = false ->
   initElement rnd element w = hung)
  /\ (forall attr, getAttribute el "data-lettercrap-words" = Some attr ->
        empty_segment attr -> initElement rnd element w = hung).
Proof.
  intros Hnone Htext Hsrc Hne Himage. cbv zeta.
  assert (Hmain :
    blank (nullish (getAttribute (document w element) "data-lettercrap-letters")
             (letters (w_config w)))
    \/ Exists blank
         match getAttribute (document w element) "data-lettercrap-words" with
         | Some attr => split SPACE attr
         | None => words (w_config w)
         end
    \/ isNumberNonNegative
         (parseInt (nullish (getAttribute (document w element)
                               "data-lettercrap-update-interval")
                      (numberToString (update_interval (w_config w))))) = false ->
    initElement rnd element w
    = (Pending,
       update_element element
         (set_style_height (heightPx (document w element) image)) w)).
  { intros Hbad.
    rewrite (initElement_image_element rnd element w src image) by assumption.
    unfold render. cbv zeta. rewrite document_update_eq.
    change (w_config (update_element element
                        (set_style_height (heightPx (document w element) image)) w))
      with (w_config w).
    change (getAttribute (set_style_height (heightPx (document w element) image)
                            (document w element)))
      with (getAttribute (document w element)).
    assert (Hcheck :
      negb (isStringNonBlank
              (trim (nullish (getAttribute (document w element)
                                "data-lettercrap-letters") (letters (w_config w)))))
      || negb (isArrayStringNonBlank
                 match getAttribute (document w element) "data-lettercrap-words" with
                 | Some attr => split SPACE attr
                 | None => words (w_config w)
                 end)
      || negb (isNumberNonNegative
                 (parseInt (nullish (getAttribute (document w element)
                                       "data-lettercrap-update-interval")
                              (numberToString (update_interval (w_config w))))))
      = true).
    { destruct Hbad as [Hb | [Hb | Hb]].
      - apply trim_nil_iff in Hb. rewrite Hb. reflexivity.
      - apply isArrayStringNonBlank_false in Hb. rewrite Hb.
        rewrite orb_true_r. reflexivity.
      - rewrite Hb. apply orb_true_r. }
    rewrite Hcheck. reflexivity. }
  split; [exact Hmain |].
  intros attr Hattr Hseg. apply Hmain. right; left. rewrite Hattr.
  apply Exists_exists. exists []. split; [| constructor].
  apply list_elem_of_In, split_empty_segment, Hseg.
Qed.

(** X13. When the first frame cannot be drawn, [initElement] hangs and leaves
    an observer behind. Let the element be unregistered, show an image that
    loads and have valid settings. If reading the canvas back throws (as
    [getImageData] does for a canvas without pixels, on an element narrower
    or lower than one character cell), the promise of [initElement] never
    settles: nothing is registered and no timer is started, but the resize
    observer made before the first frame stays connected to the element, and
    [resetElement] rejects without disconnecting it. *)
Theorem failed_first_frame_leaves_observer (rnd : tape) (element : HTMLDivElement)
    (w : World) (src : jsstring) (image : HTMLImageElement) (message : string) :
  instances w !! element = None ->
  hasAttribute (document w element) "data-lettercrap-text" = false ->
  getAttribute (document w element) "data-lettercrap" = Some src -> src <> [] ->
  loadImage src = Some image ->
  let el := document w element in
  let sized := set_style_height (heightPx el image) el in
  isStringNonBlank
    (trim (nullish (getAttribute el "data-lettercrap-letters") (letters (w_config w))))
  = true ->
  isArrayStringNonBlank
    match getAttribute el "data-lettercrap-words" with
    | Some attr => split SPACE attr
    | None => words (w_config w)
    end = true ->
  isNumberNonNegative
    (parseInt (nullish (getAttribute el "data-lettercrap-update-interval")
                 (numberToString (update_interval (w_config w))))) = true ->
  getImageData image (clientWidth sized) (clientHeight sized) = Throw message ->
  let w' := snd (initElement rnd element w) in
  fst (initElement rnd element w) = Pending
  /\ instances w' = instances w
  /\ intervals w' = intervals w
  /\ observers w' = <[next_observer w := element]> (observers w)
  /\ document w' element = sized
  /\ resetElement element w' = (Rejected (Error "Element not initialized"), w').
Proof.
  intros Hnone Htext Hsrc Hne Himage. cbv zeta.
  intros Hletters Hwords Hinterval Hthrow.
  rewrite (initElement_image_element rnd element w src image) by assumption.
  unfold render. cbv zeta. rewrite document_update_eq.
  change (w_config (update_element element
                      (set_style_height (heightPx (document w element) image)) w))
    with (w_config w).
  change (getAttribute (set_style_height (heightPx (document w element) image)
                          (document w element)))
    with (getAttribute (document w element)).
  rewrite Hletters, Hwords, Hinterval. cbn [negb orb].
  unfold observe, write. cbv zeta.
  match goal with
  | |- context [getImageData image (clientWidth ?a) (clientHeight ?b)] =>
      replace a with (set_style_height (heightPx (document w element) image)
                        (document w element))
        by (simpl; rewrite decide_True by reflexivity; reflexivity);
      replace b with (set_style_height (heightPx (document w element) image)
                        (document w element))
        by (simpl; rewrite decide_True by reflexivity; reflexivity)
  end.
  rewrite Hthrow. cbn [fst snd].
  split; [reflexivity |]. split; [reflexivity |]. split; [reflexivity |].
  split; [reflexivity |]. split.
  - simpl. rewrite decide_True by reflexivity. reflexivity.
  - unfold resetElement. cbn [instances update_element]. rewrite Hnone. reflexivity.
Qed.

(** X14. Two calls of [initElement] on the same element that overlap leak a
    timer. Let both calls be made while the element is unregistered, so that
    both pass the check of line 189 and wait for their image. When the two
    [load] handlers then run and both succeed, the second registry entry
    replaces the first, while the timer and the observer of the first stay
    on: [resetElement] stops the second timer only, and after it the element
    is unregistered, yet the first timer still runs and writes to it, and a
    further [resetElement] is rejected. *)
Theorem overlapping_calls_leak_timer (rnd1 rnd2 : tape) (element : HTMLDivElement)
    (src : jsstring) (image : HTMLImageElement) (w w1 w2 : World) :
  initElement_call element w = AwaitImage src ->
  loadImage src = Some image ->
  initElement_load rnd1 element (loadImage src) w = (Resolved tt, w1) ->
  initElement_load rnd2 element (loadImage src) w1 = (Resolved tt, w2) ->
  instances w1 !! element = Some (mkInstance (next_interval w) (next_observer w))
  /\ instances w2 !! element
     = Some (mkInstance (S (next_interval w)) (S (next_observer w)))
  /\ (exists delay, intervals w2 !! next_interval w = Some (element, delay))
  /\ observers w2 !! next_observer w = Some element
  /\ fst (resetElement element w2) = Resolved tt
  /\ instances (snd (resetElement element w2)) !! element = None
  /\ (exists delay,
        intervals (snd (resetElement element w2)) !! next_interval w
        = Some (element, delay))
  /\ observers (snd (resetElement element w2)) !! next_observer w = Some element
  /\ fst (resetElement element (snd (resetElement element w2)))
     = Rejected (Error "Element not initialized").
Proof.
  intros _ Himage Hfirst Hsecond.
  pose proof (initElement_load_effects rnd1 element (loadImage src) w) as H1.
  pose proof (initElement_load_effects rnd2 element (loadImage src) w1) as H2.
  cbv zeta in H1, H2. rewrite Hfirst in H1. rewrite Hsecond in H2.
  cbn [fst snd] in H1, H2.
  destruct H1 as (_ & _ & (d1 & Hi1 & Hint1 & Hob1 & Hni1 & Hno1)).
  destruct H2 as (_ & _ & (d2 & Hi2 & Hint2 & Hob2 & Hni2 & Hno2)).
  rewrite Hni1, Hno1 in Hi2. rewrite Hni1 in Hint2. rewrite Hno1 in Hob2.
  assert (Hreg2 : instances w2 !! element
                  = Some (mkInstance (S (next_interval w)) (S (next_observer w))))
    by (rewrite Hi2; apply lookup_insert_eq).
  assert (Htimer : intervals w2 !! next_interval w = Some (element, d1)).
  { rewrite Hint2, lookup_insert_ne by lia. rewrite Hint1. apply lookup_insert_eq. }
  assert (Hobserver : observers w2 !! next_observer w = Some element).
  { rewrite Hob2, lookup_insert_ne by lia. rewrite Hob1. apply lookup_insert_eq. }
  pose proof (resetElement_effects element w2) as Hr. cbv zeta in Hr.
  rewrite Hreg2 in Hr. destruct Hr as (_ & Hi3 & _ & _ & _ & Hok & Hint3 & Hob3 & _).
  cbn [intervalId observer] in Hint3, Hob3.
  assert (Hnone3 : instances (snd (resetElement element w2)) !! element = None)
    by (rewrite Hi3; apply lookup_delete_eq).
  split; [rewrite Hi1; apply lookup_insert_eq |].
  split; [exact Hreg2 |]. split; [eauto |]. split; [exact Hobserver |].
  split; [exact Hok |]. split; [exact Hnone3 |]. split; [| split].
  - exists d1. rewrite Hint3, lookup_delete_ne by lia. exact Htimer.
  - rewrite Hob3, lookup_delete_ne by lia. exact Hobserver.
  - pose proof (resetElement_effects element (snd (resetElement element w2))) as Hr.
    cbv zeta in Hr. rewrite Hnone3 in Hr.
    destruct Hr as (_ & _ & _ & _ & _ & Hrej & _). exact Hrej.
Qed.

End NeverSettled.

Lemma invalid_settings_never_settle_witness :
  initElement (browser := sampleBrowser) half 1%positive blankLettersWorld
  = (Pending,
     update_element 1%positive (set_style_height (js "20px")) blankLettersWorld).
Proof.
  apply (proj1 (invalid_settings_never_settle (browser := sampleBrowser) half
                  1%positive blankLettersWorld (js "logo.png") 1%positive
                  eq_refl eq_refl eq_refl ltac:(discriminate) eq_refl)).
  left. repeat constructor.
Defined.

Lemma failed_first_frame_leaves_observer_witness :
  fst (initElement (browser := narrowBrowser) half 1%positive idleWorld) = Pending
  /\ observers (snd (initElement (browser := narrowBrowser) half 1%positive idleWorld))
     = <[0 := 1%positive]> ∅.
Proof.
  destruct (failed_first_frame_leaves_observer (browser := narrowBrowser) half
              1%positive idleWorld (js "logo.png") 1%positive "IndexSizeError"
              eq_refl eq_refl eq_refl ltac:(discriminate) eq_refl
              eq_refl eq_refl eq_refl eq_refl)
    as (Hpending & _ & _ & Hobservers & _).
  split; [exact Hpending | exact Hobservers].
Defined.

Lemma overlapping_calls_leak_timer_witness :
  exists w1 w2 delay,
    initElement_load (browser := sampleBrowser) half 1%positive (Some 1%positive)
      idleWorld = (Resolved tt, w1)
    /\ initElement_load (browser := sampleBrowser) low 1%positive (Some 1%positive)
         w1 = (Resolved tt, w2)
    /\ instances (snd (resetElement 1%positive w2)) !! 1%positive = None
    /\ intervals (snd (resetElement 1%positive w2)) !! 1 = Some (1%positive, delay).
Proof.
  destruct (initElement_load (browser := sampleBrowser) half 1%positive
              (Some 1%positive) idleWorld) as [o1 w1] eqn:H1.
  assert (Ho1 : o1 = Resolved tt)
    by (apply (f_equal fst) in H1; vm_compute in H1; congruence).
  subst o1.
  destruct (initElement_load (browser := sampleBrowser) low 1%positive
              (Some 1%positive) w1) as [o2 w2] eqn:H2.
  assert (Ho2 : o2 = Resolved tt).
  { apply (f_equal fst) in H2. apply (f_equal snd) in H1. cbn [fst snd] in H1, H2.
    subst w1. vm_compute in H2. congruence. }
  subst o2.
  destruct (overlapping_calls_leak_timer (browser := sampleBrowser) half low
              1%positive (js "logo.png") 1%positive idleWorld w1 w2
              eq_refl eq_refl H1 H2)
    as (_ & _ & _ & _ & _ & Hnone & (delay & Htimer) & _).
  exists w1, w2, delay. repeat split; assumption.
Defined.

(** ** Surface lifecycle: what an activation shows and what a reset undoes *)

Lemma compositor_ok_covers (rnd : tape) (d : ImageData)
    (existingText : option jsstring) (words : list jsstring) (letters : jsstring)
    (text : jsstring) :
  getTextContentWithImageAtSize rnd d existingText words letters = Ok text ->
  covers d.
Proof.
  unfold getTextContentWithImageAtSize, covers. cbv zeta. intros Hrun.
  destruct (le_lt_dec (4 * (width d * height d)) (length (data d))) as [Hle | Hlt];
    [exact Hle |].
  rewrite forY_throws in Hrun; [discriminate | simpl; lia | simpl; lia].
Qed.

Section Activation.

Context {browser : Browser}.

Lemma render_ok_frame (rnd : tape) (element : HTMLDivElement)
    (image : HTMLImageElement) (w w' : World) (metadata : InitializedInstance) :
  render rnd element image w = (Ok metadata, w') ->
  let sized :=
    set_style_height (heightPx (document w element) image) (document w element) in
  let ls :=
    trim (nullish (getAttribute sized "data-lettercrap-letters")
            (letters (w_config w))) in
  let ws :=
    match getAttribute sized "data-lettercrap-words" with
    | Some attr => split SPACE attr
    | None => words (w_config w)
    end in
  exists d text,
    ls <> []
    /\ getImageData image (clientWidth sized) (clientHeight sized) = Ok d
    /\ getTextContentWithImageAtSize rnd d None ws ls = Ok text
    /\ document w' element = set_textContent (Some text) sized.
Proof.
  unfold render. cbv zeta.
  rewrite !document_update_eq. cbn [w_config update_element].
  destruct (negb (isStringNonBlank ?[ls]) || _ || _) eqn:Hcheck; [discriminate |].
  apply orb_false_iff in Hcheck as [Hcheck _].
  apply orb_false_iff in Hcheck as [Hls _]. apply negb_false_iff in Hls.
  unfold observe, write. cbv zeta. cbn [document].
  rewrite !document_update_eq.
  destruct (getImageData _ _ _) as [d | e] eqn:Hd; [| discriminate].
  destruct (getTextContentWithImageAtSize rnd d None _ _) as [text | e] eqn:Hrun;
    [| discriminate].
  unfold setInterval. cbn [fst snd]. intros [= _ <-].
  exists d, text.
  split; [| split; [first [exact Hd | reflexivity]
                   | split; [first [exact Hrun | reflexivity] |]]].
  - intros Hnil. rewrite Hnil in Hls. discriminate Hls.
  - simpl. rewrite !decide_True by reflexivity. reflexivity.
Qed.

Lemma loadAndRender_ok_frame (rnd : tape) (element : HTMLDivElement)
    (w w' : World) :
  loadAndRender rnd element w = (Resolved tt, w') ->
  let el := document w element in
  exists image,
    loadImage (default [] (getAttribute el "data-lettercrap")) = Some image
    /\ let sized := set_style_height (heightPx el image) el in
       let ls :=
         trim (nullish (getAttribute sized "data-lettercrap-letters")
                 (letters (w_config w))) in
       let ws :=
         match getAttribute sized "data-lettercrap-words" with
         | Some attr => split SPACE attr
         | None => words (w_config w)
         end in
       exists d text,
         ls <> []
         /\ getImageData image (clientWidth sized) (clientHeight sized) = Ok d
         /\ getTextContentWithImageAtSize rnd d None ws ls = Ok text
         /\ document w' element = set_textContent (Some text) sized.
Proof.
  unfold loadAndRender. cbv zeta.
  destruct (negb _); [discriminate |].
  destruct (loadImage _) as [image |] eqn:Himage; [| discriminate].
  destruct (render rnd element image w) as [[metadata | e] w1] eqn:Hrender;
    [| discriminate].
  intros [= <-]. exists image. split; [reflexivity |].
  exact (render_ok_frame _ _ _ _ _ _ Hrender).
Qed.

(** X15. An activation that resolves has put a first frame into the element,
    made from the image, the size, the palette and the words of that element.
    Let the draws lie in the unit interval, and let [el] be the element as
    the promise executor finds it (with the data URL of its text as
    [data-lettercrap] when it has a [data-lettercrap-text]). When
    [initElement] resolves on an unregistered element, then the image loaded
    from the [data-lettercrap] of [el] exists; [sized] is [el] with the
    height that [resetText] gives it for that image; the grid [d] is what
    [getImageData] reads for that image at the client width and height of
    [sized]; the palette is the trimmed [data-lettercrap-letters] of the
    element or else the configured letters, the words are its
    [data-lettercrap-words] split at spaces or else the configured words; the
    compositor, run without previous text on [d] with these words and this
    palette, returns a text; and the element is afterwards exactly [sized]
    with that text as its text content. The text has [height] rows of [width]
    code units, each followed by a line break, with a space at every cell
    that is not filled and a character of the palette or of a word at every
    filled cell. *)
Theorem activation_shows_first_frame (rnd : tape) (element : HTMLDivElement)
    (w w' : World) :
  in_unit rnd ->
  instances w !! element = None ->
  initElement rnd element w = (Resolved tt, w') ->
  let el := sourced element w in
  exists image,
    loadImage (default [] (getAttribute el "data-lettercrap")) = Some image
    /\ let sized := set_style_height (heightPx el image) el in
       let ls :=
         trim (nullish (getAttribute sized "data-lettercrap-letters")
                 (letters (w_config w))) in
       let ws :=
         match getAttribute sized "data-lettercrap-words" with
         | Some attr => split SPACE attr
         | None => words (w_config w)
         end in
       exists d text,
         getImageData image (clientWidth sized) (clientHeight sized) = Ok d
         /\ getTextContentWithImageAtSize rnd d None ws ls = Ok text
         /\ document w' element = set_textContent (Some text) sized
         /\ text_of_grid (cell_content ls None ws d) d text
         /\ length text = height d * (width d + 1).
Proof.
  intros Hunit Hnone Hinit. cbv zeta.
  assert (Hframe : exists w0,
            document w0 element = sourced element w
            /\ w_config w0 = w_config w
            /\ loadAndRender rnd element w0 = (Resolved tt, w')).
  { revert Hinit. unfold initElement, sourced.
    rewrite Hnone, bool_decide_eq_false_2 by (intros [? [=]]). cbv zeta.
    destruct (hasAttribute _ _); [| intros Hload; exists w; auto].
    destruct (_ || _); [discriminate |].
    destruct (textDataURL _ _ _) as [data | |]; [| discriminate ..].
    intros Hload. eexists. split; [| split; [| exact Hload]].
    - apply document_update_eq.
    - reflexivity. }
  destruct Hframe as (w0 & Hel & Hconfig & Hload).
  apply loadAndRender_ok_frame in Hload. cbv zeta in Hload.
  rewrite Hel, Hconfig in Hload.
  destruct Hload as (image & Himage & d & text & Hne & Hd & Hrun & Hdoc).
  exists image. split; [exact Himage |]. exists d, text.
  split; [exact Hd |]. split; [exact Hrun |]. split; [exact Hdoc |].
  match type of Hrun with
  | getTextContentWithImageAtSize _ _ _ ?ws ?ls = _ =>
      destruct (compositor_cells rnd d None ws ls) as (text' & Hrun' & Hgrid)
  end.
  { split; [exact Hunit |]. split; [exact Hne |].
    split; [exact (compositor_ok_covers _ _ _ _ _ _ Hrun) | discriminate]. }
  rewrite Hrun in Hrun'. injection Hrun' as <-.
  split; [exact Hgrid | exact (text_of_grid_length _ _ _ Hgrid)].
Qed.

(** X16. A reset undoes an activation. In a consistent world, when
    [initElement] resolves on an unregistered element and [resetElement] is
    then called on it, the registry, the running timers and the connected
    observers are exactly what they were before the activation, the settings
    and the other elements are untouched, and the element has no text and no
    forced height; only the attributes of the element and the next free ids
    may differ. *)
Theorem reset_undoes_activation (rnd : tape) (element : HTMLDivElement)
    (w w1 : World) :
  consistent w ->
  instances w !! element = None ->
  initElement rnd element w = (Resolved tt, w1) ->
  fst (resetElement element w1) = Resolved tt
  /\ instances (snd (resetElement element w1)) = instances w
  /\ intervals (snd (resetElement element w1)) = intervals w
  /\ observers (snd (resetElement element w1)) = observers w
  /\ w_config (snd (resetElement element w1)) = w_config w
  /\ (forall e, e <> element -> document (snd (resetElement element w1)) e = document w e)
  /\ textContent (document (snd (resetElement element w1)) element) = None
  /\ style_height (document (snd (resetElement element w1)) element) = [].
Proof.
  intros (_ & _ & Hids & Hobs) Hnone Hinit.
  pose proof (initElement_effects rnd element w Hnone) as He. cbv zeta in He.
  rewrite Hinit in He. cbn [fst snd] in He.
  destruct He as (Hc & Hdoc & w0 & (delay & Hi & Hint & Hob & _)
                  & Hi0 & Hint0 & Hob0 & Hni0 & Hno0).
  rewrite Hi0, Hni0, Hno0 in Hi. rewrite Hint0, Hni0 in Hint.
  rewrite Hob0, Hno0 in Hob.
  pose proof (resetElement_effects element w1) as Hr. cbv zeta in Hr.
  assert (Hreg : instances w1 !! element
                 = Some (mkInstance (next_interval w) (next_observer w)))
    by (rewrite Hi; apply lookup_insert_eq).
  rewrite Hreg in Hr.
  destruct Hr as (Hc2 & Hi2 & Hdoc2 & _ & _ & Hok & Hint2 & Hob2 & Hel).
  cbn [intervalId observer] in Hint2, Hob2.
  split; [exact Hok |].
  split; [rewrite Hi2, Hi; apply delete_insert_id, Hnone |].
  split.
  { rewrite Hint2, Hint. apply delete_insert_id.
    destruct (intervals w !! next_interval w) eqn:Hused; [| reflexivity].
    assert (next_interval w < next_interval w) by (apply Hids; eauto). lia. }
  split.
  { rewrite Hob2, Hob. apply delete_insert_id.
    destruct (observers w !! next_observer w) eqn:Hused; [| reflexivity].
    assert (next_observer w < next_observer w) by (apply Hobs; eauto). lia. }
  split; [congruence |]. split.
  { intros e Hne. rewrite Hdoc2, Hdoc by exact Hne. reflexivity. }
  rewrite Hel. split; reflexivity.
Qed.

End Activation.

Lemma activation_shows_first_frame_witness :
  exists image d text,
    loadImage (Browser := sampleBrowser)
      (default [] (getAttribute (sourced (browser := sampleBrowser) 1%positive idleWorld)
                     "data-lettercrap"))
    = Some image
    /\ getTextContentWithImageAtSize half d None
         match getAttribute (sourced (browser := sampleBrowser) 1%positive idleWorld)
                 "data-lettercrap-words" with
         | Some attr => split SPACE attr
         | None => words (w_config idleWorld)
         end
         (trim (nullish (getAttribute (sourced (browser := sampleBrowser) 1%positive
                                         idleWorld) "data-lettercrap-letters")
                  (letters (w_config idleWorld))))
       = Ok text
    /\ textContent
         (document (snd (initElement (browser := sampleBrowser) half 1%positive idleWorld))
            1%positive)
       = Some text
    /\ length text = height d * (width d + 1).
Proof.
  destruct (activation_shows_first_frame (browser := sampleBrowser) half 1%positive
              idleWorld
              (snd (initElement (browser := sampleBrowser) half 1%positive idleWorld)))
    as (image & Himage & d & text & _ & Hrun & Hdoc & _ & Hlen).
  - intros k. split; [discriminate | reflexivity].
  - reflexivity.
  - vm_compute. reflexivity.
  - exists image, d, text. split; [exact Himage |]. split; [exact Hrun |].
    split; [rewrite Hdoc; reflexivity | exact Hlen].
Defined.

Lemma reset_undoes_activation_witness :
  intervals
    (snd (resetElement 1%positive
            (snd (initElement (browser := sampleBrowser) half 1%positive idleWorld))))
  = ∅.
Proof.
  apply (reset_undoes_activation (browser := sampleBrowser) half 1%positive idleWorld
           (snd (initElement (browser := sampleBrowser) half 1%positive idleWorld))).
  - apply empty_consistent; reflexivity.
  - reflexivity.
  - vm_compute. reflexivity.
Defined.

(** ** Frame compositor: a tick in which nothing fires *)

Lemma rows_reused (d : ImageData) (rows : list jsstring) :
  forall (pre : jsstring) (y0 : nat),
    length pre = y0 * width d ->
    Forall2 (fun y row =>
               Forall2 (fun k c => (filledAt d k = false -> c = SPACE)
                                   /\ c <> CR /\ c <> LF)
                 (seq (y * width d) (width d)) row)
      (seq y0 (length rows)) rows ->
    Forall2 (fun y row =>
               row = map (fun k => if filledAt d k
                                   then nth k (pre ++ concat rows) SPACE else SPACE)
                       (seq (y * width d) (width d)))
      (seq y0 (length rows)) rows.
Proof.
  induction rows as [| row rest IH]; intros pre y0 Hpre Hall; [constructor |].
  simpl in Hall. apply Forall2_cons_1 in Hall as [Hrow Hrest].
  pose proof Hrow as Hcells. apply Forall2_seq_lookup in Hcells as [Hlen Hcells].
  simpl. constructor.
  - apply Forall2_eq_map. apply Forall2_seq_lookup. split; [exact Hlen |].
    intros j c Hc. destruct (Hcells j c Hc) as [Hspace _].
    destruct (filledAt d (y0 * width d + j)) eqn:Hf; [| apply Hspace; reflexivity].
    assert (Hj : j < length row) by (apply nth_error_Some; congruence).
    rewrite app_nth2 by lia. rewrite app_nth1 by lia.
    replace (y0 * width d + j - length pre) with j by lia.
    symmetry. apply nth_error_nth. exact Hc.
  - specialize (IH (pre ++ row) (S y0)).
    rewrite <- app_assoc in IH. apply IH; [rewrite length_app; simpl; lia | exact Hrest].
Qed.

(** X17. A tick in which nothing fires shows the same frame again. Let the
    previous text be a frame of the grid (rows of [width] code units without
    line breaks, spaces at the cells that are not filled), let the buffer
    hold every cell and let no draw be below 0.1. Then the compositor returns
    the previous text itself: removing the line breaks and writing the rows
    again is the identity on frames. *)
Theorem quiet_tick_repeats_frame (rnd : tape) (d : ImageData) (previous : jsstring)
    (words : list jsstring) (letters : jsstring) :
  frame_of d previous -> covers d -> (forall k, (1 # 10 <= rnd k)%Q) ->
  getTextContentWithImageAtSize rnd d (Some previous) words letters = Ok previous.
Proof.
  intros (rows & -> & Hrows) Hcov Hhigh.
  destruct (stripLineBreaks_frame _ _ _ _ (fun k c H => proj2 H) Hrows)
    as [Hstrip Hlen].
  rewrite length_seq in Hlen.
  destruct (compositor_grid rnd (Some (concat (map (fun row => row ++ [LF]) rows)))
              words letters d
              (fun k c => c = if filledAt d k
                              then nth k (concat rows) SPACE else SPACE))
    as (text & Hrun & rows' & -> & Hrows').
  { intros st _ Hi. simpl. rewrite Hstrip.
    apply cell_reuse; [exact Hcov | lia | exact Hi |].
    intros _. apply high_draws_quiet_any; [exact Hhigh |].
    intros Hnil. rewrite Hnil in Hlen. simpl in Hlen. lia. }
  refine (eq_trans Hrun _). do 3 f_equal.
  assert (Hh : length rows = height d).
  { apply Forall2_length in Hrows. rewrite length_seq in Hrows.
    symmetry. exact Hrows. }
  assert (Hsame : Forall2 (fun y row =>
                    row = map (fun k => if filledAt d k
                                        then nth k (concat rows) SPACE else SPACE)
                            (seq (y * width d) (width d)))
                    (seq 0 (height d)) rows).
  { rewrite <- Hh in *. apply (rows_reused d rows [] 0); [reflexivity | exact Hrows]. }
  assert (Hsame' : Forall2 (fun y row =>
                     row = map (fun k => if filledAt d k
                                         then nth k (concat rows) SPACE else SPACE)
                             (seq (y * width d) (width d)))
                     (seq 0 (height d)) rows').
  { eapply Forall2_impl; [exact Hrows' |]. intros y row Hrow.
    apply Forall2_eq_map in Hrow. exact Hrow. }
  apply Forall2_eq_map in Hsame, Hsame'. congruence.
Qed.

Lemma quiet_tick_repeats_frame_witness :
  getTextContentWithImageAtSize half
    (mkImageData 2 2 (darkPixel ++ lightPixel ++ darkPixel ++ darkPixel))
    (Some (js "1 " ++ [LF] ++ js "HI" ++ [LF])) [js "HI"] (js "01")
  = Ok (js "1 " ++ [LF] ++ js "HI" ++ [LF]).
Proof.
  apply (quiet_tick_repeats_frame half
           (mkImageData 2 2 (darkPixel ++ lightPixel ++ darkPixel ++ darkPixel))
           (js "1 " ++ [LF] ++ js "HI" ++ [LF]) [js "HI"] (js "01")).
  - exists [js "1 "; js "HI"]. split; [reflexivity |].
    repeat constructor; try discriminate.
  - unfold covers. simpl. lia.
  - intros k. discriminate.
Defined.
